(** * TranscriptorWhisperX: the coordination core of [audiototext.py]

    A shallow embedding of the parts of [src/audiototext.py] that the
    repository itself contributes: the subtitle time formatter, the
    segment formatter, the cancellable pipeline shell, the single-slot
    admission gate of [/transcribe], [/stop], and the one-record export
    cache of [/export].

    Conventions of the embedding.
    - A Python [str] is a [string] whose characters are the code points
      below 256; [str.strip] and [str.lower] are written out for that range.
    - A Python [float] is an IEEE 754 binary64 value, [spec_float] with the
      operations of [SpecFloat] at precision 53 and exponent bound 1024.
    - A Python [int] is a [Z].
    - Code that may raise returns a [result]; the external collaborators
      (ffmpeg, whisperx, the translator, uuid4) are fields of an
      environment record, one outcome per call site. *)

From Stdlib Require Import ZArith String Ascii List Bool Lia DecimalString SpecFloat.
From Stdlib Require QArith Qround DecimalPos DecimalZ.
From stdpp Require Import base tactics option list strings gmap.

Import ListNotations.
Local Open Scope string_scope.
#[local] Arguments String.append !_ _ / : simpl nomatch.
Local Open Scope Z_scope.

(** ** Exceptions *)

Inductive exn : Type :=
| FfmpegError (stderr : string)      (* ffmpeg.Error *)
| PyException (msg : string).        (* any other Exception; [msg] is str(err) *)

Inductive result (A : Type) : Type :=
| Ok (a : A)
| Raise (e : exn).
Arguments Ok {A} a.
Arguments Raise {A} e.

Definition rbind {A B} (r : result A) (k : A -> result B) : result B :=
  match r with
  | Ok a => k a
  | Raise e => Raise e
  end.

Notation "'try!' x := r 'in' k" := (rbind r (fun x => k))
  (at level 10, x name, r at level 100, k at level 200).

(** ** Python strings *)

Module PyStr.

(** [str.isspace] on one character, for code points below 256. *)
Definition is_space (c : ascii) : bool :=
  let n := nat_of_ascii c in
  ((9 <=? n) && (n <=? 13) || (28 <=? n) && (n <=? 32)
   || (n =? 133) || (n =? 160))%nat.

Fixpoint lstrip (s : string) : string :=
  match s with
  | EmptyString => EmptyString
  | String c s' => if is_space c then lstrip s' else s
  end.

Fixpoint rstrip (s : string) : string :=
  match s with
  | EmptyString => EmptyString
  | String c s' =>
      match rstrip s' with
      | EmptyString => if is_space c then EmptyString else String c EmptyString
      | r => String c r
      end
  end.

(** [s.strip()] *)
Definition strip (s : string) : string := rstrip (lstrip s).

(** [c.lower()] for code points below 256: A-Z and the accented capitals
    of Latin-1 (all but the multiplication sign) move up by 32. *)
Definition lower_char (c : ascii) : ascii :=
  let n := nat_of_ascii c in
  if ((65 <=? n) && (n <=? 90)
      || (192 <=? n) && (n <=? 222) && negb (n =? 215))%nat
  then ascii_of_nat (n + 32) else c.

Fixpoint lower (s : string) : string :=
  match s with
  | EmptyString => EmptyString
  | String c s' => String (lower_char c) (lower s')
  end.

(** [sep.join(l)] *)
Definition join (sep : string) (l : list string) : string := String.concat sep l.

(** truthiness of a string: [bool(s)] *)
Definition truthy (s : string) : bool :=
  match s with EmptyString => false | _ => true end.

(** [str(n)] for an int *)
Definition of_int (n : Z) : string := NilZero.string_of_int (Z.to_int n).

Fixpoint zeros (n : nat) : string :=
  match n with O => EmptyString | S n' => String "0" (zeros n') end.

(** [s.zfill]-like left padding with "0" up to [w] characters *)
Definition zfill (w : nat) (s : string) : string :=
  zeros (w - String.length s) ++ s.

(** [f"{n:0w}"]: sign-aware zero padding to a minimum width of [w] *)
Definition format_0w (w : nat) (n : Z) : string :=
  if n <? 0 then "-" ++ zfill (w - 1) (of_int (- n))
  else zfill w (of_int n).

Definition newline : string := String (ascii_of_nat 10) EmptyString.

(** one character given by its code point *)
Definition chr (n : nat) : string := String (ascii_of_nat n) EmptyString.

End PyStr.

(** ** Python floats and ints *)

Module PyFloat.

Definition float : Type := spec_float.

Definition prec : Z := 53.
Definition emax : Z := 1024.

Definition mul (x y : float) : float := SFmul prec emax x y.

(** the float of an int that is converted exactly (|n| below 2^53 here) *)
Definition of_Z_exact (n : Z) : float :=
  match n with
  | Z0 => S754_zero false
  | Zpos p => S754_finite false p 0
  | Zneg p => S754_finite true p 0
  end.

(** the literal [0.0] *)
Definition zero : float := S754_zero false.

(** the float of the int [1000] in [seconds_value * 1000]: 1000.0 *)
Definition f1000 : float := S754_finite false 8796093022208000 (-43).

(** [int(x)]: truncation toward zero; NaN and the infinities raise. *)
Definition to_int (x : float) : result Z :=
  match x with
  | S754_zero _ => Ok 0
  | S754_nan => Raise (PyException "cannot convert float NaN to integer")
  | S754_infinity _ => Raise (PyException "cannot convert float infinity to integer")
  | S754_finite s m e =>
      let mag := match e with
                 | Zneg k => Z.shiftr (Zpos m) (Zpos k)
                 | _ => Z.shiftl (Zpos m) e
                 end in
      Ok (if s then - mag else mag)
  end.

(** [a / b] on ints: the quotient rounded once, to the nearest binary64
    value (ties to even).  [SFdiv] rounds the exact quotient of the two
    mantissas, whatever their width. *)
Definition true_divide (a b : Z) : float :=
  SFdiv prec emax (of_Z_exact a) (of_Z_exact b).

(** the rational number a finite float stands for (0 for the others) *)
Definition value (x : float) : QArith_base.Q :=
  match x with
  | S754_finite s m e =>
      let z := if s then Zneg m else Zpos m in
      match e with
      | Zneg k => QArith_base.Qmake z (2 ^ k)%positive
      | _ => QArith_base.inject_Z (z * 2 ^ e)
      end
  | _ => QArith_base.inject_Z 0
  end.

Definition is_finite (x : float) : bool :=
  match x with
  | S754_zero _ | S754_finite _ _ _ => true
  | _ => false
  end.

(** a zero or a finite float with the sign bit clear *)
Definition nonneg_finite (x : float) : bool :=
  match x with
  | S754_zero _ => true
  | S754_finite s _ _ => negb s
  | _ => false
  end.

End PyFloat.

(** ** datetime.timedelta *)

Module Timedelta.

Record timedelta : Type := mk_timedelta {
  days : Z;
  seconds : Z;
  microseconds : Z
}.

Definition max_days : Z := 999999999.

(** the first millisecond count whose day count exceeds [max_days] *)
Definition ms_limit : Z := 86400000 * 1000000000.

(** [timedelta(milliseconds=ms)] for an int [ms]: the fields are normalised
    with floor division.  The day count is first converted to a C int, which
    raises OverflowError when it does not fit in 32 bits; a day count beyond
    [max_days] then raises OverflowError with the text of the range check. *)
Definition of_milliseconds (ms : Z) : result timedelta :=
  let us := ms * 1000 in
  let d := us / 86400000000 in
  let r := us mod 86400000000 in
  if (d >? 2147483647) || (d <? -2147483648)
  then Raise (PyException "Python int too large to convert to C int")
  else if (Z.abs d >? max_days)
  then Raise (PyException ("days=" ++ PyStr.of_int d
                           ++ "; must have magnitude <= 999999999"))
  else Ok (mk_timedelta d (r / 1000000) (r mod 1000000)).

(** [td.total_seconds()] *)
Definition total_seconds (td : timedelta) : PyFloat.float :=
  PyFloat.true_divide
    ((days td * 86400 + seconds td) * 1000000 + microseconds td) 1000000.

End Timedelta.

(** ** format_srt_time (lines 94-102) *)

Definition format_srt_time (seconds_value : PyFloat.float) : result string :=
  try! total_ms := PyFloat.to_int (PyFloat.mul seconds_value PyFloat.f1000) in
  try! td := Timedelta.of_milliseconds total_ms in
  try! total_seconds := PyFloat.to_int (Timedelta.total_seconds td) in
  let hours := total_seconds / 3600 in
  let minutes := (total_seconds mod 3600) / 60 in
  let seconds := total_seconds mod 60 in
  let millis := total_ms mod 1000 in
  Ok (PyStr.format_0w 2 hours ++ ":" ++ PyStr.format_0w 2 minutes ++ ":"
      ++ PyStr.format_0w 2 seconds ++ "," ++ PyStr.format_0w 3 millis).

(** ** Segments

    A segment is the dict whisperx produces; the code reads and writes the
    keys "start", "end", "text" and "speaker", each of which may be absent. *)

Record segment : Type := mk_segment {
  seg_start : option PyFloat.float;
  seg_end : option PyFloat.float;
  seg_text : option string;
  seg_speaker : option string
}.

(** [seg.get("text", "").strip()] *)
Definition seg_text_stripped (seg : segment) : string :=
  PyStr.strip (default "" (seg_text seg)).

(** truthiness of [seg.get("speaker")] *)
Definition seg_has_speaker (seg : segment) : bool :=
  match seg_speaker seg with
  | Some sp => PyStr.truthy sp
  | None => false
  end.

(** [seg["text"] = t] *)
Definition seg_set_text (t : string) (seg : segment) : segment :=
  mk_segment (seg_start seg) (seg_end seg) (Some t) (seg_speaker seg).

(** [seg.setdefault("speaker", sp)] *)
Definition seg_setdefault_speaker (sp : string) (seg : segment) : segment :=
  match seg_speaker seg with
  | Some _ => seg
  | None => mk_segment (seg_start seg) (seg_end seg) (seg_text seg) (Some sp)
  end.

(** ** build_output_text (lines 105-126) *)

(** [f"{seg['speaker']}: {text}"] when labels are on and the segment has one *)
Definition labelled (with_speaker : bool) (seg : segment) (text : string) : string :=
  if with_speaker && seg_has_speaker seg
  then default "" (seg_speaker seg) ++ ": " ++ text
  else text.

(** one pass of the loop body of lines 108-114 *)
Definition srt_block (with_speaker : bool) (idx : Z) (seg : segment) : result string :=
  try! start := format_srt_time (default PyFloat.zero (seg_start seg)) in
  try! end_ := format_srt_time
                 (default (default PyFloat.zero (seg_start seg)) (seg_end seg)) in
  let text := labelled with_speaker seg (seg_text_stripped seg) in
  Ok (PyStr.of_int idx ++ PyStr.newline ++ start ++ " --> " ++ end_
      ++ PyStr.newline ++ text ++ PyStr.newline).

(** the loop of lines 107-114; [lines] is the list built so far *)
Fixpoint srt_lines (with_speaker : bool) (idx : Z) (segments : list segment)
         (lines : list string) : result (list string) :=
  match segments with
  | [] => Ok lines
  | seg :: rest =>
      try! line := srt_block with_speaker idx seg in
      srt_lines with_speaker (idx + 1) rest (lines ++ [line])
  end.

(** the loop of lines 117-125 *)
Fixpoint flat_texts (with_speaker : bool) (segments : list segment)
         (texts : list string) : list string :=
  match segments with
  | [] => texts
  | seg :: rest =>
      let text := seg_text_stripped seg in
      if negb (PyStr.truthy text) then flat_texts with_speaker rest texts
      else if with_speaker && seg_has_speaker seg
           then flat_texts with_speaker rest
                  (texts ++ [default "" (seg_speaker seg) ++ ": " ++ text])
           else flat_texts with_speaker rest (texts ++ [text])
  end.

Definition build_output_text (segments : list segment)
           (with_timestamp with_speaker : bool) : result string :=
  if with_timestamp then
    try! lines := srt_lines with_speaker 1 segments [] in
    Ok (PyStr.strip (PyStr.join PyStr.newline lines))
  else
    Ok (PyStr.strip (PyStr.join " " (flat_texts with_speaker segments []))).

(** ** Configuration tables (lines 31-41) *)

Definition LANG_MAP : gmap string string :=
  list_to_map [("pt", "pt"); ("ing", "en"); ("jp", "ja")].

Record quality : Type := mk_quality {
  q_model : string;
  q_batch_size : Z;
  q_align : bool
}.

Definition quality_bom : quality := mk_quality "medium" 8 true.

Definition QUALITY_CONFIG : gmap string quality :=
  list_to_map [("rapido", mk_quality "small" 16 false);
               ("bom", quality_bom);
               ("perfeito", mk_quality "large-v2" 4 true)].

(** ** The cancellable pipeline

    [transcribe_with_cancel] runs in a worker thread while the event loop
    keeps serving requests.  The only shared object it touches is its stop
    event, which it reads at three places.  A pipeline is therefore a
    program over two kinds of steps: an external stage that takes time
    ([PCall]), and a read of the stop event ([PIsSet]). *)

Inductive stage : Type :=
| StSave | StConvert | StLoadAudio | StTranscribe | StAlign | StDiarize | StTranslate.

Definition stage_eqb (a b : stage) : bool :=
  match a, b with
  | StSave, StSave | StConvert, StConvert | StLoadAudio, StLoadAudio
  | StTranscribe, StTranscribe | StAlign, StAlign | StDiarize, StDiarize
  | StTranslate, StTranslate => true
  | _, _ => false
  end.

Inductive prog (A : Type) : Type :=
| PRet (a : A)
| PRaise (e : exn)
| PCall (st : stage) (k : prog A)
| PIsSet (k : bool -> prog A).
Arguments PRet {A} a.
Arguments PRaise {A} e.
Arguments PCall {A} st k.
Arguments PIsSet {A} k.

Fixpoint pbind {A B} (p : prog A) (f : A -> prog B) : prog B :=
  match p with
  | PRet a => f a
  | PRaise e => PRaise e
  | PCall st k => PCall st (pbind k f)
  | PIsSet k => PIsSet (fun b => pbind (k b) f)
  end.

Notation "'do!' x := p 'in' k" := (pbind p (fun x => k))
  (at level 10, x name, p at level 100, k at level 200).

Definition lift {A} (r : result A) : prog A :=
  match r with
  | Ok a => PRet a
  | Raise e => PRaise e
  end.

(** an external call: the stage runs, then its outcome is known *)
Definition call {A} (st : stage) (r : result A) : prog A := PCall st (lift r).

(** [stop_event.is_set()] *)
Definition is_set : prog bool := PIsSet PRet.

(** What [model.transcribe] returns: the dict's "segments" and "language". *)
Record transcription : Type := mk_transcription {
  tr_segments : option (list segment);
  tr_language : option string
}.

(** The outcomes of the external collaborators during one job. *)
Record env : Type := mk_env {
  env_save_upload : result unit;           (* lines 239-242 *)
  env_convert_to_wav : result unit;        (* line 244; may be ffmpeg.Error *)
  env_load_audio : result unit;            (* whisperx.load_audio *)
  env_transcribe : string -> Z -> result transcription;
                                           (* get_model(name).transcribe(batch_size) *)
  env_align : string -> list segment -> result (option (list segment));
                                           (* aligned.get("segments") of a dict *)
  env_diarize : list segment -> result (option (list segment));
                                           (* speaker_assigned.get("segments") *)
  env_translate : string -> string -> string -> result string;
                                           (* source, target, text *)
  env_uuid4 : string
}.

Definition nonempty {A} (l : list A) : bool :=
  match l with [] => false | _ => true end.

(** lines 174-188 *)
Definition align_step (e : env) (detected_language : string)
           (segments : list segment) : list segment :=
  match env_align e detected_language segments with
  | Ok (Some aligned) => if nonempty aligned then aligned else segments
  | Ok None => segments
  | Raise _ => segments
  end.

(** the loop of lines 198-199 *)
Fixpoint narrator_fallback (segments : list segment) : list segment :=
  match segments with
  | [] => []
  | seg :: rest => seg_setdefault_speaker "NARRADOR" seg :: narrator_fallback rest
  end.

(** lines 191-199 *)
Definition diarize_step (e : env) (segments : list segment) : list segment :=
  match env_diarize e segments with
  | Ok (Some assigned) => if nonempty assigned then assigned else segments
  | Ok None => segments
  | Raise _ => narrator_fallback segments
  end.

(** the loop body of lines 204-212 *)
Definition translate_segment (e : env) (detected_language target_code : string)
           (seg : segment) : segment :=
  let text_val := seg_text_stripped seg in
  if negb (PyStr.truthy text_val) then seg
  else match env_translate e detected_language target_code text_val with
       | Ok translated => seg_set_text translated seg
       | Raise _ => seg_set_text text_val seg
       end.

(** the loop of lines 203-212 *)
Fixpoint translate_segments (e : env) (detected_language target_code : string)
         (segments : list segment) : list segment :=
  match segments with
  | [] => []
  | seg :: rest =>
      translate_segment e detected_language target_code seg
      :: translate_segments e detected_language target_code rest
  end.

(** [result.get("language") or "pt"] *)
Definition language_or_pt (l : option string) : string :=
  match l with
  | Some s => if PyStr.truthy s then s else "pt"
  | None => "pt"
  end.

Definition pipeline_result : Type := (bool * string * list segment * string)%type.

(** lines 142-215 *)
Definition transcribe_with_cancel (e : env)
           (with_timestamp with_speaker : bool)
           (target_language precision : string) : prog pipeline_result :=
  let cfg := default quality_bom (QUALITY_CONFIG !! precision) in
  do! _audio := call StLoadAudio (env_load_audio e) in
  do! stop := is_set in
  if (stop : bool) then PRet (true, "", [], "pt") else
  do! result := call StTranscribe (env_transcribe e (q_model cfg) (q_batch_size cfg)) in
  let segments := default [] (tr_segments result) in
  let detected_language := language_or_pt (tr_language result) in
  do! stop := is_set in
  if (stop : bool) then
    do! partial_text := lift (build_output_text segments with_timestamp false) in
    PRet (true, partial_text, segments, detected_language)
  else
    do! segments :=
      (if nonempty segments && q_align cfg
       then PCall StAlign (PRet (align_step e detected_language segments))
       else PRet segments) in
    do! segments :=
      (if with_speaker && nonempty segments
       then PCall StDiarize (PRet (diarize_step e segments))
       else PRet segments) in
    let target_code := default "pt" (LANG_MAP !! target_language) in
    do! segments :=
      (if negb (String.eqb target_code detected_language) && nonempty segments
       then PCall StTranslate
              (PRet (translate_segments e detected_language target_code segments))
       else PRet segments) in
    do! text := lift (build_output_text segments with_timestamp with_speaker) in
    do! stop := is_set in
    PRet (stop, text, segments, detected_language).

(** Running a pipeline alone, the stop event being set by [/stop] at one
    moment: [signal = Some st] sets it right after stage [st] returns,
    before the next statement of the pipeline; [None] never sets it.
    [set] is the state of the event. *)
Definition signal_hits (signal : option stage) (st : stage) : bool :=
  match signal with
  | Some s => stage_eqb s st
  | None => false
  end.

Fixpoint exec {A} (signal : option stage) (set : bool) (p : prog A) : result A :=
  match p with
  | PRet a => Ok a
  | PRaise e => Raise e
  | PCall st k => exec signal (set || signal_hits signal st) k
  | PIsSet k => exec signal set (k set)
  end.

(** The stages a pipeline runs through, in order, under the same reading. *)
Fixpoint stages_run {A} (signal : option stage) (set : bool) (p : prog A) : list stage :=
  match p with
  | PRet _ | PRaise _ => []
  | PCall st k => st :: stages_run signal (set || signal_hits signal st) k
  | PIsSet k => stages_run signal set (k set)
  end.

(** ** HTTP layer *)

Inductive http (A : Type) : Type :=
| Http200 (body : A)
| HttpError (status : Z) (detail : string).
Arguments Http200 {A} body.
Arguments HttpError {A} status detail.

Module Msg.
Import PyStr.
(** The literals of the source; accented letters by their code point. *)
Definition busy : string :=
  "Servidor ocupado com outra transcri" ++ chr 231 ++ chr 227
  ++ "o. Tente novamente.".
Definition convert_failed : string :=
  "Falha ao converter " ++ chr 225 ++ "udio: ".
Definition transcribe_failed : string :=
  "Falha na transcri" ++ chr 231 ++ chr 227 ++ "o: ".
Definition not_found : string :=
  "Transcri" ++ chr 231 ++ chr 227 ++ "o n" ++ chr 227
  ++ "o encontrada para exporta" ++ chr 231 ++ chr 227 ++ "o.".
Definition invalid_format : string :=
  "Formato inv" ++ chr 225 ++ "lido. Use txt ou srt.".
Definition srt_unavailable : string :=
  "SRT dispon" ++ chr 237 ++ "vel apenas quando timestamp est" ++ chr 225
  ++ " ativado.".
End Msg.

Record request : Type := mk_request {
  timestamp : bool;
  diferenciar_narrador : bool;
  idioma : string;
  precisao : string
}.

(** the JSON body of a [/transcribe] answer; [resp_aborted] is the presence
    of the key "aborted" (its value is then True) *)
Record transcribe_response : Type := mk_transcribe_response {
  resp_text : string;
  resp_aborted : bool;
  resp_job_id : string;
  resp_timestamp_enabled : bool;
  resp_detected_language : string
}.

(** [last_export_payload] *)
Record payload : Type := mk_payload {
  p_job_id : string;
  p_txt : string;
  p_srt : option string;
  p_srt_enabled : bool
}.

Record export_response : Type := mk_export_response {
  content : string;
  media_type : string;
  content_disposition : string
}.

(** lines 238-257: what the handler awaits before it builds its answer *)
Definition transcribe_body (e : env) (req : request) : prog pipeline_result :=
  do! _tmp := call StSave (env_save_upload e) in
  do! _wav := call StConvert (env_convert_to_wav e) in
  transcribe_with_cancel e (timestamp req) (diferenciar_narrador req)
                         (idioma req) (precisao req).

(** lines 259-295: the record to store and the body to return *)
Definition transcribe_tail (e : env) (req : request) (r : pipeline_result)
  : result (payload * transcribe_response) :=
  let '(aborted, text, segments, detected_language) := r in
  let job_id := env_uuid4 e in
  try! txt_content := build_output_text segments false (diferenciar_narrador req) in
  try! srt_content :=
    (if timestamp req
     then try! srt := build_output_text segments true (diferenciar_narrador req) in
          Ok (Some srt)
     else Ok None) in
  Ok (mk_payload job_id txt_content srt_content (timestamp req),
      mk_transcribe_response text aborted job_id (timestamp req) detected_language).

(** lines 297-301: the two [except] clauses *)
Definition http_of_exn {A} (err : exn) : http A :=
  match err with
  | FfmpegError stderr => HttpError 400 (Msg.convert_failed ++ stderr)
  | PyException msg => HttpError 500 (Msg.transcribe_failed ++ msg)
  end.

(** lines 259-301 once the pipeline has returned or raised: the answer, and
    the record to store if there is one *)
Definition conclude (e : env) (req : request) (r : result pipeline_result)
  : http transcribe_response * option payload :=
  match r with
  | Ok r =>
      match transcribe_tail e req r with
      | Ok (pl, body) => (Http200 body, Some pl)
      | Raise err => (http_of_exn err, None)
      end
  | Raise err => (http_of_exn err, None)
  end.

(** One request served from admission to answer, the stop event being set
    as [signal] says (see [run_alone] for the run of the server it stands
    for). *)
Definition transcribe_alone (signal : option stage) (e : env) (req : request)
  : http transcribe_response * option payload :=
  conclude e req (exec signal false (transcribe_body e req)).

(** ** The server: globals, handlers in flight, and their steps *)

(** The module globals of lines 90-91 and 129-130.  [events] is the store of
    the [threading.Event] objects created so far; [current_stop_event] is
    [None] or a reference into it, shared with the pipeline of the job that
    created it. *)
Record state : Type := mk_state {
  current_task_lock : bool;
  events : list bool;
  current_stop_event : option nat;
  last_export_payload : option payload
}.

(** A [/transcribe] handler suspended at an [await]: its arguments, its
    local [stop_event] and what remains of its pipeline. *)
Record frame : Type := mk_frame {
  fr_req : request;
  fr_env : env;
  fr_stop_event : nat;
  fr_prog : prog pipeline_result
}.

Record config : Type := mk_config {
  srv : state;
  frames : list frame
}.

Definition init : config := mk_config (mk_state false [] None None) [].

(** [lock.acquire(blocking=False)]: the answer comes at once, with the new
    state of the lock. *)
Definition try_acquire (locked : bool) : bool * bool :=
  if locked then (false, locked) else (true, true).

(** lines 225-236: admission.  A refused request is answered here; an
    admitted one leaves a frame behind and is answered when it ends. *)
Definition transcribe_enter (req : request) (e : env) (c : config)
  : option (http transcribe_response) * config :=
  let st := srv c in
  let '(acquired, lock') := try_acquire (current_task_lock st) in
  if negb acquired then (Some (HttpError 429 Msg.busy), c)
  else
    let stop_event := length (events st) in
    (None,
     mk_config
       (mk_state lock' (events st ++ [false]) (Some stop_event)
                 (last_export_payload st))
       (frames c ++ [mk_frame req e stop_event (transcribe_body e req)])).

(** lines 302-316: the [finally] clause *)
Definition transcribe_finally (st : state) : state :=
  mk_state (if current_task_lock st then false else current_task_lock st)
           (events st) None (last_export_payload st).

(** lines 271-278 *)
Definition store_payload (pl : payload) (st : state) : state :=
  mk_state (current_task_lock st) (events st) (current_stop_event st) (Some pl).

Definition set_prog (p : prog pipeline_result) (fr : frame) : frame :=
  mk_frame (fr_req fr) (fr_env fr) (fr_stop_event fr) p.

(** The handler in flight at index [i] takes its next step: one external
    stage, one read of its stop event, or its end (lines 259-316). *)
Definition transcribe_advance (i : nat) (c : config)
  : option (http transcribe_response) * config :=
  match frames c !! i with
  | None => (None, c)
  | Some fr =>
      match fr_prog fr with
      | PCall _ k => (None, mk_config (srv c) (<[i := set_prog k fr]> (frames c)))
      | PIsSet k =>
          let b := default false (events (srv c) !! fr_stop_event fr) in
          (None, mk_config (srv c) (<[i := set_prog (k b) fr]> (frames c)))
      | PRet r =>
          match transcribe_tail (fr_env fr) (fr_req fr) r with
          | Ok (pl, body) =>
              (Some (Http200 body),
               mk_config (transcribe_finally (store_payload pl (srv c)))
                         (delete i (frames c)))
          | Raise err =>
              (Some (http_of_exn err),
               mk_config (transcribe_finally (srv c)) (delete i (frames c)))
          end
      | PRaise err =>
          (Some (http_of_exn err),
           mk_config (transcribe_finally (srv c)) (delete i (frames c)))
      end
  end.

Inductive stop_status : Type := no_active_task | stopping.

(** lines 318-327 *)
Definition stop_processing (c : config) : stop_status * config :=
  let st := srv c in
  match current_stop_event st with
  | None => (no_active_task, c)
  | Some ev =>
      (stopping,
       mk_config (mk_state (current_task_lock st) (<[ev := true]> (events st))
                           (current_stop_event st) (last_export_payload st))
                 (frames c))
  end.

(** lines 330-357 *)
Definition export_transcription (job_id formato : string) (st : state)
  : http export_response :=
  match last_export_payload st with
  | None => HttpError 404 Msg.not_found
  | Some data =>
      if negb (String.eqb (p_job_id data) job_id) then HttpError 404 Msg.not_found
      else
        let fmt := PyStr.strip (PyStr.lower formato) in
        if negb (String.eqb fmt "txt" || String.eqb fmt "srt")
        then HttpError 400 Msg.invalid_format
        else if String.eqb fmt "srt" then
          if negb (p_srt_enabled data)
             || negb (match p_srt data with Some s => PyStr.truthy s | None => false end)
          then HttpError 400 Msg.srt_unavailable
          else Http200 (mk_export_response
                          (default "" (p_srt data))
                          "application/x-subrip"
                          ("attachment; filename=" ++ PyStr.chr 34 ++ "transcricao_"
                           ++ job_id ++ ".srt" ++ PyStr.chr 34))
        else Http200 (mk_export_response
                        (p_txt data)
                        "text/plain; charset=utf-8"
                        ("attachment; filename=" ++ PyStr.chr 34 ++ "transcricao_"
                         ++ job_id ++ ".txt" ++ PyStr.chr 34))
  end.

(** What happens at the server, one event at a time. *)
Inductive event : Type :=
| EvTranscribe (req : request) (e : env)   (* a POST /transcribe arrives *)
| EvAdvance (i : nat)                      (* a handler in flight moves on *)
| EvStop                                   (* POST /stop *)
| EvExport (job_id formato : string).      (* GET /export *)

Inductive output : Type :=
| OutTranscribe (answer : option (http transcribe_response))
| OutStop (status : stop_status)
| OutExport (answer : http export_response).

Definition step (ev : event) (c : config) : output * config :=
  match ev with
  | EvTranscribe req e =>
      let '(a, c') := transcribe_enter req e c in (OutTranscribe a, c')
  | EvAdvance i =>
      let '(a, c') := transcribe_advance i c in (OutTranscribe a, c')
  | EvStop =>
      let '(s, c') := stop_processing c in (OutStop s, c')
  | EvExport job_id formato =>
      (OutExport (export_transcription job_id formato (srv c)), c)
  end.

Fixpoint run (evs : list event) (c : config) : list output * config :=
  match evs with
  | [] => ([], c)
  | ev :: rest =>
      let '(o, c') := step ev c in
      let '(os, c'') := run rest c' in
      (o :: os, c'')
  end.

Inductive reachable : config -> Prop :=
| reachable_init : reachable init
| reachable_step ev c : reachable c -> reachable (snd (step ev c)).

(** The body of the job that completed last in a history of answers: the
    last [/transcribe] answer with status 200. *)
Definition completed (o : output) : option transcribe_response :=
  match o with
  | OutTranscribe (Some (Http200 b)) => Some b
  | _ => None
  end.

Fixpoint last_completed (outs : list output) : option transcribe_response :=
  match outs with
  | [] => None
  | o :: rest =>
      match last_completed rest with
      | Some b => Some b
      | None => completed o
      end
  end.

(** ** Notions used in the statements *)

(** What every reachable configuration satisfies: the lock is held exactly
    while one handler is in flight, and [current_stop_event] then refers to
    that handler's own event. *)
Definition gate_inv (c : config) : Prop :=
  if current_task_lock (srv c)
  then exists fr, frames c = [fr]
                  /\ current_stop_event (srv c) = Some (fr_stop_event fr)
                  /\ (fr_stop_event fr < length (events (srv c)))%nat
  else frames c = [] /\ current_stop_event (srv c) = None.

(** the largest number of steps a pipeline can still take *)
Fixpoint steps_left {A} (p : prog A) : nat :=
  match p with
  | PRet _ | PRaise _ => 0
  | PCall _ k => S (steps_left k)
  | PIsSet k => S (Nat.max (steps_left (k true)) (steps_left (k false)))
  end.

Definition is_advance0 (ev : event) : bool :=
  match ev with EvAdvance O => true | _ => false end.

(** how often the handler at index 0 is scheduled in a list of events *)
Definition advances (evs : list event) : nat :=
  length (List.filter is_advance0 evs).

(** The events of one handler running from its current point to its end,
    with one [/stop] placed as [signal] says: right after the step of that
    stage. *)
Fixpoint schedule {A} (signal : option stage) (set : bool) (p : prog A) : list event :=
  match p with
  | PRet _ | PRaise _ => [EvAdvance 0]
  | PCall st k =>
      EvAdvance 0
      :: ((if signal_hits signal st then [EvStop] else [])
          ++ schedule signal (set || signal_hits signal st) k)%list
  | PIsSet k => EvAdvance 0 :: schedule signal set (k set)
  end.

(** The stored record is the one of the job that completed last: same
    identifier, and subtitles enabled as that job asked. *)
Definition records (pl : option payload) (b : option transcribe_response) : Prop :=
  match pl, b with
  | None, None => True
  | Some p, Some b =>
      p_job_id p = resp_job_id b /\ p_srt_enabled p = resp_timestamp_enabled b
  | _, _ => False
  end.

Definition latest (b : option transcribe_response) (b0 : option transcribe_response)
  : option transcribe_response :=
  match b with Some _ => b | None => b0 end.

Definition starts_with_space (s : string) : bool :=
  match s with
  | String c _ => PyStr.is_space c
  | EmptyString => false
  end.

Fixpoint all_space (s : string) : bool :=
  match s with
  | String c s' => PyStr.is_space c && all_space s'
  | EmptyString => true
  end.

(** a piece that [strip] leaves alone, also at either end of a join *)
Definition tight (p : string) : Prop :=
  p <> "" /\ starts_with_space p = false /\ PyStr.rstrip p = p.

(** the two times of a segment as lines 109-110 read them *)
Definition start_of (seg : segment) : PyFloat.float :=
  default PyFloat.zero (seg_start seg).
Definition end_of (seg : segment) : PyFloat.float :=
  default (default PyFloat.zero (seg_start seg)) (seg_end seg).

(** both times of the segment can be formatted *)
Definition times_formattable (seg : segment) : Prop :=
  exists s e, format_srt_time (start_of seg) = Ok s
              /\ format_srt_time (end_of seg) = Ok e.

(** what makes [round_nearest_even] go up *)
Definition rounds_up (l : location) (m : Z) : bool :=
  match l with
  | loc_Inexact Gt => true
  | loc_Inexact Eq => Z.odd m
  | _ => false
  end.

(** ** Sample data for the examples *)

(** the literals [1.234] and [3661.5]: the binary64 values nearest to
    1234/1000 and 36615/10; [1e14] and [2e14] *)
Definition f_1_234 : PyFloat.float := PyFloat.true_divide 1234 1000.
Definition f_3661_5 : PyFloat.float := PyFloat.true_divide 36615 10.
Definition f_1e14 : PyFloat.float := PyFloat.true_divide 100000000000000 1.
Definition f_2e14 : PyFloat.float := PyFloat.true_divide 200000000000000 1.

Definition ex_seg_ola : segment :=
  mk_segment (Some f_1_234) (Some f_3661_5) (Some " ola ") None.
Definition ex_seg_blank : segment :=
  mk_segment (Some f_3661_5) (Some f_3661_5) (Some "  ") None.
Definition ex_seg_labelled : segment :=
  mk_segment (Some f_1_234) None (Some "hi") (Some "A").
(** a segment whose speaker label begins with a space *)
Definition ex_seg_space_label : segment :=
  mk_segment (Some f_1_234) None (Some "hi") (Some " A").

(** a job whose collaborators all succeed; the translator answers "hello" *)
Definition ex_env : env :=
  mk_env (Ok tt) (Ok tt) (Ok tt)
         (fun _ _ => Ok (mk_transcription (Some [ex_seg_ola]) (Some "pt")))
         (fun _ _ => Ok None)
         (fun _ => Raise (PyException "HF_TOKEN"))
         (fun _ _ _ => Ok "hello")
         "job-1".

(** the same job with the translator out of reach *)
Definition ex_env_offline : env :=
  mk_env (Ok tt) (Ok tt) (Ok tt)
         (fun _ _ => Ok (mk_transcription (Some [ex_seg_ola]) (Some "pt")))
         (fun _ _ => Ok None)
         (fun _ => Raise (PyException "HF_TOKEN"))
         (fun _ _ _ => Raise (PyException "network"))
         "job-2".

(** a job whose audio cannot be converted *)
Definition ex_env_bad_audio : env :=
  mk_env (Ok tt) (Raise (FfmpegError "invalid data")) (Ok tt)
         (fun _ _ => Ok (mk_transcription (Some [ex_seg_ola]) (Some "pt")))
         (fun _ _ => Ok None)
         (fun _ => Raise (PyException "HF_TOKEN"))
         (fun _ _ _ => Ok "hello")
         "job-3".

Definition ex_req : request := mk_request false true "ing" "bom".
Definition ex_req_srt : request := mk_request true true "ing" "bom".

(** one job submitted to a fresh server *)
Definition ex_busy : config := snd (step (EvTranscribe ex_req ex_env) init).

(** a whole job, uncancelled, from submission to its answer *)
Definition ex_history : list event :=
  EvTranscribe ex_req ex_env :: repeat (EvAdvance 0) 12.

(** two whole jobs, one after the other: "job-1", then "job-2" *)
Definition ex_history2 : list event :=
  (ex_history ++ EvTranscribe ex_req ex_env_offline :: repeat (EvAdvance 0) 12)%list.

(** the subtitle text of [ex_seg_ola] alone *)
Definition ex_srt_ola : string :=
  "1" ++ PyStr.newline ++ "00:00:01,234 --> 01:01:01,500" ++ PyStr.newline ++ "ola".

(** ** WhisperXRuntime (lines 44-86)

    The three caches of the runtime object.  Each getter runs under its own
    lock, so it is one atomic step on the caches; the loader of whisperx is
    an argument, with the outcome it has at the time of the call. *)

Module Runtime.

Record runtime (M A P : Type) : Type := mk_runtime {
  models : gmap string M;
  align_models : gmap string A;
  diarize_pipeline : option P
}.
Arguments mk_runtime {M A P} _ _ _.
Arguments models {M A P} _.
Arguments align_models {M A P} _.
Arguments diarize_pipeline {M A P} _.

(** line 89: a fresh runtime *)
Definition fresh {M A P : Type} : runtime M A P := mk_runtime ∅ ∅ None.

(** [d[k]] on a dict; the text of a KeyError is the key in quotes *)
Definition getitem {V : Type} (d : gmap string V) (k : string) : result V :=
  match d !! k with
  | Some v => Ok v
  | None => Raise (PyException (PyStr.chr 39 ++ k ++ PyStr.chr 39))
  end.

(** lines 55-64 *)
Definition get_model {M A P : Type} (load_model : string -> result M)
           (model_name : string) (rt : runtime M A P)
  : result M * runtime M A P :=
  match models rt !! model_name with
  | None =>
      match load_model model_name with
      | Ok m =>
          let rt' := mk_runtime (<[model_name := m]> (models rt))
                                (align_models rt) (diarize_pipeline rt) in
          (getitem (models rt') model_name, rt')
      | Raise err => (Raise err, rt)
      end
  | Some _ => (getitem (models rt) model_name, rt)
  end.

(** lines 66-73 *)
Definition get_align_model {M A P : Type} (load_align_model : string -> result A)
           (language_code : string) (rt : runtime M A P)
  : result A * runtime M A P :=
  match align_models rt !! language_code with
  | None =>
      match load_align_model language_code with
      | Ok a =>
          let rt' := mk_runtime (models rt)
                                (<[language_code := a]> (align_models rt))
                                (diarize_pipeline rt) in
          (getitem (align_models rt') language_code, rt')
      | Raise err => (Raise err, rt)
      end
  | Some _ => (getitem (align_models rt) language_code, rt)
  end.

(** the message of the RuntimeError of lines 77-79 *)
Definition no_token : string :=
  "HF_TOKEN n" ++ PyStr.chr 227 ++ "o configurado. Defina a vari" ++ PyStr.chr 225
  ++ "vel de ambiente para habilitar diferencia" ++ PyStr.chr 231 ++ PyStr.chr 227
  ++ "o de narrador.".

(** truthiness of [HF_TOKEN = os.getenv("HF_TOKEN", None)] *)
Definition token_set (hf_token : option string) : bool :=
  match hf_token with
  | Some t => PyStr.truthy t
  | None => false
  end.

(** lines 75-86 *)
Definition get_diarization_pipeline {M A P : Type} (hf_token : option string)
           (make_pipeline : result P) (rt : runtime M A P)
  : result P * runtime M A P :=
  if negb (token_set hf_token) then (Raise (PyException no_token), rt)
  else
    match diarize_pipeline rt with
    | None =>
        match make_pipeline with
        | Ok p => (Ok p, mk_runtime (models rt) (align_models rt) (Some p))
        | Raise err => (Raise err, rt)
        end
    | Some p => (Ok p, rt)
    end.

End Runtime.

(** lines 192-194 seen from the pipeline: the outcome of the diarization
    call when the pipeline object comes from the runtime; [diarize_assign]
    stands for [diarize(audio)] followed by [assign_word_speakers]. *)
Definition diarize_with_runtime {M A P : Type} (hf_token : option string)
           (make_pipeline : result P) (rt : Runtime.runtime M A P)
           (diarize_assign : P -> list segment -> result (option (list segment)))
           (segments : list segment) : result (option (list segment)) :=
  match fst (Runtime.get_diarization_pipeline hf_token make_pipeline rt) with
  | Ok p => diarize_assign p segments
  | Raise err => Raise err
  end.

(** ** Paths (lines 133 and 239)

    [os.path.splitext] as [genericpath._splitext] computes it; [is_sep]
    tells the path separators of the platform. *)

Module OsPath.

(** [s.rfind] for one character: the last index where [f] holds, or -1 *)
Fixpoint rfind_nat (f : ascii -> bool) (s : string) : option nat :=
  match s with
  | EmptyString => None
  | String c s' =>
      match rfind_nat f s' with
      | Some i => Some (S i)
      | None => if f c then Some O else None
      end
  end.

Definition rfind (f : ascii -> bool) (s : string) : Z :=
  match rfind_nat f s with
  | Some i => Z.of_nat i
  | None => -1
  end.

Definition is_dot (c : ascii) : bool := Ascii.eqb c ".".

(** the [while] loop of [_splitext]: is there a character other than a dot
    at [filenameIndex], ..., [filenameIndex + n - 1]? *)
Fixpoint has_non_dot (n : nat) (p : string) (filenameIndex : nat) : bool :=
  match n with
  | O => false
  | S n' =>
      match String.get filenameIndex p with
      | Some c => if negb (is_dot c) then true
                  else has_non_dot n' p (S filenameIndex)
      | None => true
      end
  end.

Definition splitext (is_sep : ascii -> bool) (p : string) : string * string :=
  let sepIndex := rfind is_sep p in
  let dotIndex := rfind is_dot p in
  if (dotIndex >? sepIndex)
     && has_non_dot (Z.to_nat (dotIndex - (sepIndex + 1))) p (Z.to_nat (sepIndex + 1))
  then (String.substring 0 (Z.to_nat dotIndex) p,
        String.substring (Z.to_nat dotIndex)
                         (String.length p - Z.to_nat dotIndex) p)
  else (p, EmptyString).

Definition posix_sep (c : ascii) : bool := Ascii.eqb c "/".

End OsPath.

(** line 133: where [convert_to_wav] writes *)
Definition converted_path (is_sep : ascii -> bool) (input_path : string) : string :=
  fst (OsPath.splitext is_sep input_path) ++ "_converted.wav".

(** line 239: the suffix of the temporary upload file, for an upload that
    carries a file name *)
Definition upload_suffix (is_sep : ascii -> bool) (filename : string) : string :=
  let ext := snd (OsPath.splitext is_sep filename) in
  if PyStr.truthy ext then ext else ".wav".

(** ** Further notions used in the statements *)

(** the environment with another translator, aligner or diarizer *)
Definition with_translate (f : string -> string -> string -> result string)
           (e : env) : env :=
  mk_env (env_save_upload e) (env_convert_to_wav e) (env_load_audio e)
         (env_transcribe e) (env_align e) (env_diarize e) f (env_uuid4 e).

Definition with_align (f : string -> list segment -> result (option (list segment)))
           (e : env) : env :=
  mk_env (env_save_upload e) (env_convert_to_wav e) (env_load_audio e)
         (env_transcribe e) f (env_diarize e) (env_translate e) (env_uuid4 e).

Definition with_diarize (f : list segment -> result (option (list segment)))
           (e : env) : env :=
  mk_env (env_save_upload e) (env_convert_to_wav e) (env_load_audio e)
         (env_transcribe e) (env_align e) f (env_translate e) (env_uuid4 e).

(** two segments that every rendering treats alike: same times as read by
    the formatter, same stripped text, same speaker *)
Definition renders_alike (a b : segment) : Prop :=
  default PyFloat.zero (seg_start a) = default PyFloat.zero (seg_start b)
  /\ default (default PyFloat.zero (seg_start a)) (seg_end a)
     = default (default PyFloat.zero (seg_start b)) (seg_end b)
  /\ seg_text_stripped a = seg_text_stripped b
  /\ seg_speaker a = seg_speaker b.

(** a segment with every key the formatter reads filled in with the
    default it would use *)
Definition with_defaults (seg : segment) : segment :=
  mk_segment (Some (default PyFloat.zero (seg_start seg)))
             (Some (default (default PyFloat.zero (seg_start seg)) (seg_end seg)))
             (Some (default "" (seg_text seg)))
             (seg_speaker seg).

(** a segment without its times *)
Definition without_times (seg : segment) : segment :=
  mk_segment None None (seg_text seg) (seg_speaker seg).

(** the number a run of decimal digits denotes, leading zeros allowed *)
Definition parse_int (s : string) : option Z :=
  option_map Z.of_int (NilZero.int_of_string s).

(** every result a pipeline can still return satisfies [P] *)
Fixpoint all_results {A} (P : A -> Prop) (p : prog A) : Prop :=
  match p with
  | PRet a => P a
  | PRaise _ => True
  | PCall _ k => all_results P k
  | PIsSet k => all_results P (k true) /\ all_results P (k false)
  end.

(** a result that is not flagged as aborted carries the rendering of its
    own segments with the options of the request *)
Definition faithful (req : request) (r : pipeline_result) : Prop :=
  let '(aborted, text, segments, _) := r in
  aborted = false ->
  build_output_text segments (timestamp req) (diferenciar_narrador req) = Ok text.

Definition frames_faithful (c : config) : Prop :=
  Forall (fun fr => all_results (faithful (fr_req fr)) (fr_prog fr)) (frames c).

(** The stored record is the one of the job that completed last, and holds
    the text of its answer unless that answer is marked aborted. *)
Definition exports (pl : option payload) (b : option transcribe_response) : Prop :=
  match pl, b with
  | None, None => True
  | Some p, Some b =>
      p_job_id p = resp_job_id b
      /\ p_srt_enabled p = resp_timestamp_enabled b
      /\ (resp_aborted b = false ->
          if resp_timestamp_enabled b then p_srt p = Some (resp_text b)
          else p_txt p = resp_text b)
  | _, _ => False
  end.

(** one step of symbolic execution of a pipeline: reduce, then split on the
    next outcome or test that blocks the reduction *)
Ltac pipeline_step :=
  cbn [exec stages_run pbind lift signal_hits stage_eqb orb existsb
       env_save_upload env_convert_to_wav env_load_audio env_transcribe];
  match goal with
  | |- context [pbind (if ?b then _ else _) _] => destruct b eqn:?
  | |- context [pbind (lift ?r) _] => destruct r eqn:?
  | |- context [lift ?r] => destruct r eqn:?
  end.

Ltac pipeline_run :=
  unfold transcribe_body, transcribe_with_cancel, call, is_set;
  repeat pipeline_step;
  cbn [exec stages_run pbind lift signal_hits stage_eqb orb existsb].

(** a runtime that holds a diarization pipeline, and a job whose diarizer
    is reached through it with an empty token *)
Definition ex_runtime : Runtime.runtime unit unit unit :=
  Runtime.mk_runtime ∅ ∅ (Some tt).

Definition ex_env_no_token : env :=
  with_diarize
    (diarize_with_runtime (Some "") (Ok tt) ex_runtime (fun _ segs => Ok (Some segs)))
    ex_env.

(** * Properties *)

(** ** The admission gate *)

Lemma gate_inv_init : gate_inv init.
Proof. split; reflexivity. Qed.

Lemma gate_inv_enter req e c :
  gate_inv c -> gate_inv (snd (transcribe_enter req e c)).
Proof.
  unfold gate_inv, transcribe_enter, try_acquire.
  destruct c as [[lock evs cse pl] frs]; simpl.
  destruct lock; simpl; [tauto|].
  intros [-> _]. eexists. simpl. repeat split.
  rewrite length_app. simpl. lia.
Qed.

Lemma gate_inv_advance i c :
  gate_inv c -> gate_inv (snd (transcribe_advance i c)).
Proof.
  unfold gate_inv, transcribe_advance.
  destruct c as [[lock evs cse pl] frs]; simpl.
  destruct lock; simpl.
  - intros (fr & -> & Hcse & Hlt).
    destruct i as [|i]; simpl; [|eauto].
    destruct (fr_prog fr) as [r|err|st k|k]; simpl.
    + destruct (transcribe_tail (fr_env fr) (fr_req fr) r) as [[pl' body]|err];
        simpl; auto.
    + auto.
    + eexists; eauto.
    + eexists; eauto.
  - intros [-> ->]. rewrite lookup_nil. simpl. auto.
Qed.

Lemma gate_inv_stop c : gate_inv c -> gate_inv (snd (stop_processing c)).
Proof.
  unfold gate_inv, stop_processing.
  destruct c as [[lock evs cse pl] frs]; simpl.
  destruct cse as [ev|]; simpl; [|tauto].
  destruct lock; [|tauto].
  intros (fr & -> & Hcse & Hlt). exists fr. rewrite length_insert. auto.
Qed.

Lemma gate_inv_step ev c : gate_inv c -> gate_inv (snd (step ev c)).
Proof.
  intros H. destruct ev as [req e|i| |job_id formato]; simpl.
  - pose proof (gate_inv_enter req e c H).
    destruct (transcribe_enter req e c); assumption.
  - pose proof (gate_inv_advance i c H).
    destruct (transcribe_advance i c); assumption.
  - pose proof (gate_inv_stop c H).
    destruct (stop_processing c); assumption.
  - assumption.
Qed.

Lemma reachable_gate_inv c : reachable c -> gate_inv c.
Proof.
  induction 1 as [|ev c _ IH]; [apply gate_inv_init | now apply gate_inv_step].
Qed.

(** A handler in flight means the slot is held. *)
Lemma active_holds_lock c :
  reachable c -> frames c <> [] -> current_task_lock (srv c) = true.
Proof.
  intros Hr Hf. apply reachable_gate_inv in Hr. unfold gate_inv in Hr.
  destruct (current_task_lock (srv c)); [reflexivity|].
  destruct Hr as [Hnil _]. contradiction.
Qed.

(** C1. While a transcription is in flight -- so that it holds the job slot --
    a new submission is answered in that very step with the busy failure,
    HTTP 429 and the busy message; the server is left exactly as it was:
    nothing is queued and nothing waits for the slot. *)
Theorem busy_while_slot_held (c : config) (req : request) (e : env) :
  reachable c ->
  frames c <> [] ->
  current_task_lock (srv c) = true
  /\ transcribe_enter req e c = (Some (HttpError 429 Msg.busy), c).
Proof.
  intros Hr Hf. pose proof (active_holds_lock c Hr Hf) as Hlock.
  split; [assumption|].
  unfold transcribe_enter, try_acquire. rewrite Hlock. reflexivity.
Qed.

(** *** Every job ends, and its end frees the slot *)

(** The step that ends a handler: whatever the answer, the lock is free
    afterwards and the reference to the stop event is dropped. *)
Lemma advance_end_releases i c a c' :
  transcribe_advance i c = (Some a, c') ->
  current_task_lock (srv c') = false /\ current_stop_event (srv c') = None.
Proof.
  unfold transcribe_advance. intros H.
  destruct (frames c !! i) as [fr|]; [|discriminate].
  destruct (fr_prog fr) as [r|err|st k|k]; try discriminate.
  - destruct (transcribe_tail (fr_env fr) (fr_req fr) r) as [[pl body]|err];
      injection H as _ <-; simpl;
      destruct (current_task_lock (srv c)); auto.
  - injection H as _ <-; simpl. destruct (current_task_lock (srv c)); auto.
Qed.

(** With the lock free, a submission is admitted and takes the lock. *)
Lemma enter_when_free req e c :
  current_task_lock (srv c) = false ->
  fst (transcribe_enter req e c) = None
  /\ current_task_lock (srv (snd (transcribe_enter req e c))) = true
  /\ frames (snd (transcribe_enter req e c))
     = (frames c ++ [mk_frame req e (length (events (srv c))) (transcribe_body e req)])%list.
Proof.
  intros H. unfold transcribe_enter, try_acquire. rewrite H. simpl. auto.
Qed.

Lemma steps_left_is_set {A} (k : bool -> prog A) (b : bool) :
  (steps_left (k b) <= Nat.max (steps_left (k true)) (steps_left (k false)))%nat.
Proof. destruct b; lia. Qed.

(** A handler in flight that is scheduled often enough reaches its end,
    whatever else happens in between. *)
Lemma job_ends (evs : list event) : forall c fr,
  reachable c ->
  frames c = [fr] ->
  (steps_left (fr_prog fr) < advances evs)%nat ->
  exists evs1 evs2 a c1 fr1,
    evs = (evs1 ++ EvAdvance 0 :: evs2)%list
    /\ frames (snd (run evs1 c)) = [fr1]
    /\ fr_req fr1 = fr_req fr /\ fr_env fr1 = fr_env fr
    /\ step (EvAdvance 0) (snd (run evs1 c)) = (OutTranscribe (Some a), c1)
    /\ current_task_lock (srv c1) = false.
Proof.
  induction evs as [|ev evs IH]; intros c fr Hr Hfr Hlt.
  - unfold advances in Hlt. simpl in Hlt. lia.
  - assert (Hlock : current_task_lock (srv c) = true).
    { apply active_holds_lock; [assumption|]. rewrite Hfr. discriminate. }
    assert (Hsame : forall o c', step ev c = (o, c') ->
              frames c' = [fr] -> is_advance0 ev = false ->
              exists evs1 evs2 a c1 fr1,
                ev :: evs = (evs1 ++ EvAdvance 0 :: evs2)%list
                /\ frames (snd (run evs1 c)) = [fr1]
                /\ fr_req fr1 = fr_req fr /\ fr_env fr1 = fr_env fr
                /\ step (EvAdvance 0) (snd (run evs1 c)) = (OutTranscribe (Some a), c1)
                /\ current_task_lock (srv c1) = false).
    { intros o c' Hs Hf' Hev.
      assert (Hr' : reachable c').
      { replace c' with (snd (step ev c)) by (rewrite Hs; reflexivity).
        now constructor. }
      unfold advances in Hlt. simpl in Hlt. rewrite Hev in Hlt.
      destruct (IH c' fr Hr' Hf' Hlt)
        as (evs1 & evs2 & a & c1 & fr1 & -> & Hf1 & Hq & He & Hst & Hl).
      exists (ev :: evs1), evs2, a, c1, fr1. simpl. rewrite Hs.
      destruct (run evs1 c') as [os c2]. simpl in *. repeat split; auto. }
    destruct ev as [req e|i| |job_id formato].
    + eapply Hsame; [| |reflexivity].
      * simpl. unfold transcribe_enter, try_acquire. rewrite Hlock. reflexivity.
      * assumption.
    + destruct i as [|i].
      * destruct (fr_prog fr) as [r|err|st k|k] eqn:Hp.
        -- exists [], evs.
           simpl. unfold transcribe_advance. rewrite Hfr. simpl. rewrite Hp.
           destruct (transcribe_tail (fr_env fr) (fr_req fr) r) as [[pl body]|err].
           ++ eexists _, _, fr. repeat split; try reflexivity; try assumption.
              simpl. rewrite Hlock. reflexivity.
           ++ eexists _, _, fr. repeat split; try reflexivity; try assumption.
              simpl. rewrite Hlock. reflexivity.
        -- exists [], evs.
           simpl. unfold transcribe_advance. rewrite Hfr. simpl. rewrite Hp.
           eexists _, _, fr. repeat split; try reflexivity; try assumption.
           simpl. rewrite Hlock. reflexivity.
        -- pose (c' := mk_config (srv c) [set_prog k fr]).
           assert (Hs : step (EvAdvance 0) c = (OutTranscribe None, c')).
           { simpl. unfold transcribe_advance. rewrite Hfr. simpl. rewrite Hp.
             reflexivity. }
           assert (Hr' : reachable c').
           { replace c' with (snd (step (EvAdvance 0) c)) by (rewrite Hs; reflexivity).
             now constructor. }
           unfold advances in Hlt. simpl in Hlt.
           destruct (IH c' (set_prog k fr) Hr' eq_refl)
             as (evs1 & evs2 & a & c1 & fr1 & -> & Hf1 & Hq & He & Hst & Hl).
           { simpl. unfold advances. lia. }
           exists (EvAdvance 0 :: evs1), evs2, a, c1, fr1.
           cbn [run app]. rewrite Hs.
           destruct (run evs1 c') as [os c2]. simpl in *. repeat split; auto.
        -- pose (b := default false (events (srv c) !! fr_stop_event fr)).
           pose (c' := mk_config (srv c) [set_prog (k b) fr]).
           assert (Hs : step (EvAdvance 0) c = (OutTranscribe None, c')).
           { simpl. unfold transcribe_advance. rewrite Hfr. simpl. rewrite Hp.
             reflexivity. }
           assert (Hr' : reachable c').
           { replace c' with (snd (step (EvAdvance 0) c)) by (rewrite Hs; reflexivity).
             now constructor. }
           unfold advances in Hlt. simpl in Hlt.
           pose proof (steps_left_is_set k b).
           destruct (IH c' (set_prog (k b) fr) Hr' eq_refl)
             as (evs1 & evs2 & a & c1 & fr1 & -> & Hf1 & Hq & He & Hst & Hl).
           { simpl. unfold advances. lia. }
           exists (EvAdvance 0 :: evs1), evs2, a, c1, fr1.
           cbn [run app]. rewrite Hs.
           destruct (run evs1 c') as [os c2]. simpl in *. repeat split; auto.
      * eapply Hsame; [| |reflexivity].
        -- simpl. unfold transcribe_advance. rewrite Hfr. reflexivity.
        -- assumption.
    + destruct (stop_processing c) as [s c'] eqn:Hstop.
      eapply Hsame; [simpl; rewrite Hstop; reflexivity | | reflexivity].
      unfold stop_processing in Hstop.
      destruct (current_stop_event (srv c)); injection Hstop as _ <-; assumption.
    + eapply Hsame; [reflexivity | assumption | reflexivity].
Qed.

(** C2. A submission that finds the slot free acquires it; if its handler is
    then scheduled often enough to run to its end -- whatever the other
    requests in between and whatever the outcome of each stage -- the step
    that delivers its answer (success, abort or failure) leaves the slot
    free, and any submission after it acquires the slot. *)
Theorem slot_released_after_job (c : config) (req : request) (e : env)
        (evs : list event) :
  reachable c ->
  current_task_lock (srv c) = false ->
  (steps_left (transcribe_body e req) < advances evs)%nat ->
  fst (transcribe_enter req e c) = None
  /\ exists evs1 evs2 a c1 fr1,
       evs = (evs1 ++ EvAdvance 0 :: evs2)%list
       /\ frames (snd (run evs1 (snd (transcribe_enter req e c)))) = [fr1]
       /\ fr_req fr1 = req /\ fr_env fr1 = e
       /\ step (EvAdvance 0) (snd (run evs1 (snd (transcribe_enter req e c))))
          = (OutTranscribe (Some a), c1)
       /\ current_task_lock (srv c1) = false
       /\ forall req' e',
            fst (transcribe_enter req' e' c1) = None
            /\ current_task_lock (srv (snd (transcribe_enter req' e' c1))) = true.
Proof.
  intros Hr Hfree Hlt.
  destruct (enter_when_free req e c Hfree) as (Hadm & Hheld & Hfr).
  split; [assumption|].
  assert (Hnil : frames c = []).
  { apply reachable_gate_inv in Hr. unfold gate_inv in Hr.
    rewrite Hfree in Hr. tauto. }
  rewrite Hnil in Hfr. simpl in Hfr.
  assert (Hr' : reachable (snd (transcribe_enter req e c))).
  { pose proof (reachable_step (EvTranscribe req e) c Hr) as H. simpl in H.
    destruct (transcribe_enter req e c). exact H. }
  destruct (job_ends evs _ _ Hr' Hfr Hlt)
    as (evs1 & evs2 & a & c1 & fr1 & Hevs & Hf1 & Hq & He & Hst & Hl).
  exists evs1, evs2, a, c1, fr1. repeat split; try assumption.
  - apply (enter_when_free req' e' c1 Hl).
  - apply (enter_when_free req' e' c1 Hl).
Qed.

(** ** The export cache *)

Lemma tail_records e req r pl body :
  transcribe_tail e req r = Ok (pl, body) ->
  p_job_id pl = resp_job_id body /\ p_srt_enabled pl = resp_timestamp_enabled body.
Proof.
  unfold transcribe_tail, rbind. destruct r as [[[aborted text] segments] lang].
  destruct (build_output_text segments false (diferenciar_narrador req));
    [|discriminate].
  destruct (timestamp req).
  - destruct (build_output_text segments true (diferenciar_narrador req));
      [|discriminate].
    intros [= <- <-]. auto.
  - intros [= <- <-]. auto.
Qed.

Lemma step_records ev c b0 :
  records (last_export_payload (srv c)) b0 ->
  records (last_export_payload (srv (snd (step ev c))))
          (latest (completed (fst (step ev c))) b0).
Proof.
  intros H. destruct ev as [req e|i| |job_id formato]; simpl.
  - unfold transcribe_enter, try_acquire.
    destruct (current_task_lock (srv c)); simpl; assumption.
  - unfold transcribe_advance.
    destruct (frames c !! i) as [fr|]; simpl; [|assumption].
    destruct (fr_prog fr) as [r|err|st k|k]; simpl; try assumption.
    + destruct (transcribe_tail (fr_env fr) (fr_req fr) r) as [[pl body]|err] eqn:Ht;
        simpl.
      * apply (tail_records _ _ _ _ _ Ht).
      * destruct err; assumption.
    + destruct err; assumption.
  - unfold stop_processing. destruct (current_stop_event (srv c)); assumption.
  - assumption.
Qed.

Lemma run_records (evs : list event) : forall c b0,
  records (last_export_payload (srv c)) b0 ->
  records (last_export_payload (srv (snd (run evs c))))
          (latest (last_completed (fst (run evs c))) b0).
Proof.
  induction evs as [|ev evs IH]; intros c b0 H; simpl; [assumption|].
  pose proof (step_records ev c b0 H) as Hs.
  destruct (step ev c) as [o c1]. simpl in Hs.
  specialize (IH c1 _ Hs).
  destruct (run evs c1) as [os c2]. simpl in *.
  destruct (last_completed os); assumption.
Qed.

(** C7. After any history of requests, an export whose identifier is not the
    one of the job that completed last -- the identifier of an earlier job,
    or any identifier when no job has completed -- is answered 404, the
    not-found failure, whatever the format asked for. *)
Theorem export_unknown_job_not_found (evs : list event) (job_id formato : string) :
  resp_job_id <$> last_completed (fst (run evs init)) <> Some job_id ->
  export_transcription job_id formato (srv (snd (run evs init)))
  = HttpError 404 Msg.not_found.
Proof.
  intros Hne.
  pose proof (run_records evs init None I) as H.
  destruct (run evs init) as [outs c]. simpl in *.
  unfold export_transcription.
  destruct (last_export_payload (srv c)) as [pl|]; [|reflexivity].
  destruct (last_completed outs) as [b|]; simpl in *; [|contradiction].
  destruct H as [Hid _].
  destruct (String.eqb_spec (p_job_id pl) job_id) as [Heq|_]; [|reflexivity].
  exfalso. apply Hne. congruence.
Qed.

(** C8. After any history in which the job that completed last was submitted
    with timestamps disabled, an export of that job in the subtitle format is
    answered 400 with the subtitles-unavailable message, while an export of
    the same job as plain text succeeds with the stored plain rendering. *)
Theorem srt_export_unavailable_without_timestamps
        (evs : list event) (b : transcribe_response) (formato : string) :
  last_completed (fst (run evs init)) = Some b ->
  resp_timestamp_enabled b = false ->
  (PyStr.strip (PyStr.lower formato) = "srt" ->
   export_transcription (resp_job_id b) formato (srv (snd (run evs init)))
   = HttpError 400 Msg.srt_unavailable)
  /\ (PyStr.strip (PyStr.lower formato) = "txt" ->
      exists pl,
        last_export_payload (srv (snd (run evs init))) = Some pl
        /\ export_transcription (resp_job_id b) formato (srv (snd (run evs init)))
           = Http200 (mk_export_response
                        (p_txt pl) "text/plain; charset=utf-8"
                        ("attachment; filename=" ++ PyStr.chr 34 ++ "transcricao_"
                         ++ resp_job_id b ++ ".txt" ++ PyStr.chr 34))).
Proof.
  intros Hlast Hts.
  pose proof (run_records evs init None I) as H.
  destruct (run evs init) as [outs c]. simpl in *.
  rewrite Hlast in H. simpl in H.
  unfold export_transcription.
  destruct (last_export_payload (srv c)) as [pl|]; [|contradiction].
  destruct H as [Hid Hen]. rewrite Hid, String.eqb_refl. simpl.
  split; intros ->; simpl.
  - rewrite Hen, Hts. reflexivity.
  - exists pl. split; reflexivity.
Qed.

(** ** Facts about [strip] *)

Section StripFacts.
Import PyStr.

Lemma lstrip_id s : starts_with_space s = false -> lstrip s = s.
Proof. destruct s as [|c s]; simpl; [reflexivity|]. now intros ->. Qed.

Lemma lstrip_head s : starts_with_space (lstrip s) = false.
Proof.
  induction s as [|c s IH]; simpl; [reflexivity|].
  destruct (is_space c) eqn:Hc; [assumption|]. simpl. assumption.
Qed.

Lemma rstrip_cons_nonempty c s :
  rstrip s <> "" -> rstrip (String c s) = String c (rstrip s).
Proof. simpl. destruct (rstrip s); [contradiction|reflexivity]. Qed.

Lemma rstrip_cons_nonspace c s :
  is_space c = false -> rstrip (String c s) = String c (rstrip s).
Proof. simpl. intros ->. destruct (rstrip s); reflexivity. Qed.

Lemma rstrip_idem s : rstrip (rstrip s) = rstrip s.
Proof.
  induction s as [|c s IH]; [reflexivity|].
  destruct (rstrip s) as [|c' r] eqn:Hr.
  - simpl. rewrite Hr. destruct (is_space c) eqn:Hc; [reflexivity|].
    simpl. now rewrite Hc.
  - rewrite (rstrip_cons_nonempty c s) by (rewrite Hr; discriminate).
    rewrite Hr.
    rewrite rstrip_cons_nonempty; [now rewrite IH|].
    rewrite IH. discriminate.
Qed.

Lemma rstrip_app a b : rstrip b <> "" -> rstrip (a ++ b) = a ++ rstrip b.
Proof.
  intros Hb. induction a as [|c a IH]; [reflexivity|].
  change (String c a ++ b) with (String c (a ++ b)).
  rewrite rstrip_cons_nonempty; rewrite IH; [reflexivity|].
  destruct a; simpl; [assumption|discriminate].
Qed.

(** [rstrip] only removes a whitespace suffix. *)
Lemma rstrip_suffix s : exists w, s = rstrip s ++ w /\ all_space w = true.
Proof.
  induction s as [|c s (w & Hs & Hw)]; [exists ""; auto|].
  simpl. destruct (rstrip s) as [|c' r] eqn:Hr.
  - simpl in Hs. subst w. destruct (is_space c) eqn:Hc.
    + exists (String c s). simpl. rewrite Hc, Hw. auto.
    + exists s. auto.
  - exists w. split; [|assumption]. simpl. simpl in Hs. now rewrite <- Hs.
Qed.

Lemma rstrip_head s : starts_with_space s = false -> starts_with_space (rstrip s) = false.
Proof.
  destruct s as [|c s]; [reflexivity|]. simpl. intros Hc.
  destruct (rstrip s); simpl; now rewrite ?Hc.
Qed.

Lemma strip_head s : starts_with_space (strip s) = false.
Proof. apply rstrip_head, lstrip_head. Qed.

Lemma rstrip_strip s : rstrip (strip s) = strip s.
Proof. apply rstrip_idem. Qed.

(** A string that neither starts with whitespace nor loses anything to
    [rstrip] is its own [strip]. *)
Lemma strip_id s : starts_with_space s = false -> rstrip s = s -> strip s = s.
Proof. intros Hl Hr. unfold strip. now rewrite lstrip_id. Qed.

Lemma truthy_nonempty s : truthy s = true -> s <> "".
Proof. destruct s; [discriminate|discriminate]. Qed.

Lemma starts_with_space_app a b :
  a <> "" -> starts_with_space (a ++ b) = starts_with_space a.
Proof. destruct a; [contradiction|reflexivity]. Qed.

Lemma join_cons sep a l :
  join sep (a :: l) = match l with [] => a | _ => a ++ sep ++ join sep l end.
Proof. destruct l; reflexivity. Qed.

End StripFacts.

(** ** The segment formatter *)

Section Formatter.
Import PyStr.

Lemma join_nonempty sep p l : p <> "" -> join sep (p :: l) <> "".
Proof.
  intros Hp. rewrite join_cons. destruct l; [assumption|].
  destruct p; [contradiction|discriminate].
Qed.

Lemma rstrip_join_tight sep (l : list string) :
  Forall tight l -> rstrip (join sep l) = join sep l.
Proof.
  induction 1 as [|p l (Hne & _ & Hr) Hl IH]; [reflexivity|].
  rewrite join_cons. destruct l as [|q l]; [assumption|].
  assert (Hq : join sep (q :: l) <> "").
  { apply join_nonempty. inversion Hl as [|? ? (Hqne & _) _]. assumption. }
  rewrite rstrip_app.
  - rewrite rstrip_app; [now rewrite IH | now rewrite IH].
  - rewrite rstrip_app; [|now rewrite IH].
    rewrite IH. destruct sep; [assumption|discriminate].
Qed.

Lemma strip_join_tight sep (l : list string) :
  Forall tight l -> strip (join sep l) = join sep l.
Proof.
  intros Hl. apply strip_id; [|now apply rstrip_join_tight].
  destruct Hl as [|p l (Hne & Hs & _) _]; [reflexivity|].
  rewrite join_cons. destruct l; [assumption|].
  now rewrite starts_with_space_app.
Qed.

Lemma stripped_tight s : truthy (strip s) = true -> tight (strip s).
Proof.
  intros H. repeat split.
  - now apply truthy_nonempty.
  - apply strip_head.
  - apply rstrip_strip.
Qed.

Lemma labelled_tight ws seg :
  truthy (seg_text_stripped seg) = true ->
  (ws = false \/ starts_with_space (default "" (seg_speaker seg)) = false) ->
  tight (labelled ws seg (seg_text_stripped seg)).
Proof.
  intros Ht Hsp. pose proof (stripped_tight _ Ht) as (Hne & Hh & Hr).
  unfold labelled.
  destruct (ws && seg_has_speaker seg) eqn:Hl; [|repeat split; assumption].
  apply andb_prop in Hl as [-> Hhas].
  destruct Hsp as [|Hsp]; [discriminate|].
  unfold seg_has_speaker in Hhas.
  destruct (seg_speaker seg) as [sp|]; [|discriminate]. simpl in *.
  apply truthy_nonempty in Hhas.
  repeat split.
  - destruct sp; [contradiction|discriminate].
  - now rewrite starts_with_space_app.
  - unfold seg_text_stripped in *.
    set (t := strip (default "" (seg_text seg))) in *.
    assert (Hb : rstrip (String ":" (String " " t)) = String ":" (String " " t)).
    { rewrite rstrip_cons_nonspace by reflexivity.
      rewrite rstrip_cons_nonempty by (now rewrite Hr). now rewrite Hr. }
    rewrite rstrip_app; rewrite Hb; [reflexivity|discriminate].
Qed.

(** The loop of lines 117-125 is a filter followed by a map. *)
Lemma flat_texts_spec ws segs : forall texts,
  flat_texts ws segs texts
  = (texts ++ map (fun seg => labelled ws seg (seg_text_stripped seg))
                  (List.filter (fun seg => truthy (seg_text_stripped seg)) segs))%list.
Proof.
  induction segs as [|seg segs IH]; intros texts; simpl.
  - now rewrite app_nil_r.
  - destruct (truthy (seg_text_stripped seg)); simpl; [|apply IH].
    unfold labelled.
    destruct (ws && seg_has_speaker seg); rewrite IH, <- app_assoc; reflexivity.
Qed.

(** [lstrip] only removes a whitespace prefix. *)
Lemma lstrip_prefix s : exists w, s = w ++ lstrip s /\ all_space w = true.
Proof.
  induction s as [|c s (w & Hs & Hw)]; [exists ""; auto|].
  cbn [lstrip]. destruct (is_space c) eqn:Hc.
  - exists (String c w). split.
    + change (String c w ++ lstrip s) with (String c (w ++ lstrip s)).
      now rewrite <- Hs.
    + simpl. now rewrite Hc, Hw.
  - exists "". auto.
Qed.

(** A string that loses nothing to [rstrip] still loses nothing once its
    leading whitespace is gone. *)
Lemma rstrip_lstrip s : rstrip s = s -> rstrip (lstrip s) = lstrip s.
Proof.
  induction s as [|c s IH]; [reflexivity|]. intros H.
  cbn [lstrip]. destruct (is_space c) eqn:Hc; [|exact H].
  apply IH. simpl in H. rewrite Hc in H.
  destruct (rstrip s) as [|c' r]; [discriminate|]. now injection H.
Qed.

Lemma rstrip_join_closed sep (l : list string) :
  Forall (fun p => p <> "" /\ rstrip p = p) l -> rstrip (join sep l) = join sep l.
Proof.
  induction 1 as [|p l (Hne & Hr) Hl IH]; [reflexivity|].
  rewrite join_cons. destruct l as [|q l]; [assumption|].
  assert (Hq : join sep (q :: l) <> "").
  { apply join_nonempty. inversion Hl as [|? ? (Hqne & _) _]. assumption. }
  rewrite rstrip_app.
  - rewrite rstrip_app; [now rewrite IH | now rewrite IH].
  - rewrite rstrip_app; [|now rewrite IH].
    rewrite IH. destruct sep; [assumption|discriminate].
Qed.

(** A rendering ends with the stripped text, whatever its label. *)
Lemma labelled_closed ws seg :
  truthy (seg_text_stripped seg) = true ->
  labelled ws seg (seg_text_stripped seg) <> ""
  /\ rstrip (labelled ws seg (seg_text_stripped seg))
     = labelled ws seg (seg_text_stripped seg).
Proof.
  intros Ht. pose proof (stripped_tight _ Ht) as (Hne & _ & Hr).
  unfold labelled, seg_text_stripped in *.
  set (t := strip (default "" (seg_text seg))) in *.
  destruct (ws && seg_has_speaker seg); [|split; assumption].
  set (sp := default "" (seg_speaker seg)).
  assert (Hb : rstrip (String ":" (String " " t)) = String ":" (String " " t)).
  { rewrite rstrip_cons_nonspace by reflexivity.
    rewrite rstrip_cons_nonempty by (now rewrite Hr). now rewrite Hr. }
  split.
  - destruct sp; discriminate.
  - change (": " ++ t) with (String ":" (String " " t)).
    rewrite rstrip_app; rewrite Hb; [reflexivity|discriminate].
Qed.

(** C5 (amended). Flat-text formatting keeps exactly the segments whose
    stripped text is non-empty, renders each as its stripped text, prefixed
    with its speaker label and ": " when labels are enabled and the segment
    has a speaker value, joins the renderings with single spaces, and
    strips the joined text (line 126).  That strip removes nothing at the
    end and only whitespace at the start, so that the result is the joined
    text itself unless a speaker label begins with whitespace. *)
Theorem flat_text_drops_empty_and_joins (segments : list segment) (with_speaker : bool) :
  let pieces :=
    map (fun seg => labelled with_speaker seg (seg_text_stripped seg))
        (List.filter (fun seg => truthy (seg_text_stripped seg)) segments) in
  build_output_text segments false with_speaker = Ok (strip (join " " pieces))
  /\ strip (join " " pieces) = lstrip (join " " pieces)
  /\ (exists leading,
        join " " pieces = leading ++ strip (join " " pieces)
        /\ all_space leading = true)
  /\ ((with_speaker = false
       \/ Forall (fun seg => starts_with_space (default "" (seg_speaker seg)) = false)
                 segments) ->
      build_output_text segments false with_speaker = Ok (join " " pieces)).
Proof.
  intros pieces. unfold build_output_text.
  rewrite flat_texts_spec. simpl app. fold pieces.
  split; [reflexivity|].
  assert (Hl : strip (join " " pieces) = lstrip (join " " pieces)).
  { unfold strip. apply rstrip_lstrip, rstrip_join_closed.
    subst pieces. clear.
    induction segments as [|seg segs IH]; simpl; [constructor|].
    destruct (truthy (seg_text_stripped seg)) eqn:Ht; simpl; [|exact IH].
    constructor; [now apply labelled_closed | exact IH]. }
  split; [exact Hl|]. split.
  { rewrite Hl. apply lstrip_prefix. }
  intros Hsp. f_equal. apply strip_join_tight.
  subst pieces. clear -Hsp.
  induction segments as [|seg segs IH]; simpl; [constructor|].
  assert (Hrest : with_speaker = false
                  \/ Forall (fun seg => starts_with_space (default "" (seg_speaker seg)) = false)
                            segs).
  { destruct Hsp as [|Hsp]; [now left|]. right. now inversion Hsp. }
  destruct (truthy (seg_text_stripped seg)) eqn:Ht; simpl; [|now apply IH].
  constructor; [|now apply IH].
  apply labelled_tight; [assumption|].
  destruct Hsp as [|Hsp]; [now left|]. right. now inversion Hsp.
Qed.

End Formatter.

Section Subtitles.
Import PyStr.

Lemma srt_block_ok ws idx seg s e :
  format_srt_time (start_of seg) = Ok s ->
  format_srt_time (end_of seg) = Ok e ->
  srt_block ws idx seg
  = Ok (of_int idx ++ newline ++ s ++ " --> " ++ e ++ newline
        ++ labelled ws seg (seg_text_stripped seg) ++ newline).
Proof.
  unfold srt_block, start_of, end_of. intros -> ->. reflexivity.
Qed.

(** A segment with no text and no label still gets its block: number,
    times and an empty text line. *)
Lemma srt_block_empty_text ws idx seg s e :
  format_srt_time (start_of seg) = Ok s ->
  format_srt_time (end_of seg) = Ok e ->
  seg_text_stripped seg = "" ->
  seg_has_speaker seg = false ->
  srt_block ws idx seg
  = Ok (of_int idx ++ newline ++ s ++ " --> " ++ e ++ newline ++ newline).
Proof.
  intros Hs He Ht Hsp. rewrite (srt_block_ok ws idx seg s e Hs He).
  unfold labelled. rewrite Hsp, Ht, andb_false_r. reflexivity.
Qed.

(** The loop of lines 107-114 appends one block per segment, in order,
    numbered from [idx]. *)
Lemma srt_lines_spec ws segs : forall idx lines,
  Forall times_formattable segs ->
  exists blocks,
    srt_lines ws idx segs lines = Ok (lines ++ blocks)%list
    /\ length blocks = length segs
    /\ forall (i : nat) seg, segs !! i = Some seg ->
         exists blk, blocks !! i = Some blk
                     /\ srt_block ws (idx + Z.of_nat i) seg = Ok blk.
Proof.
  induction segs as [|seg segs IH]; intros idx lines Hall.
  - exists []. simpl. rewrite app_nil_r. repeat split.
    intros i seg Hi. rewrite lookup_nil in Hi. discriminate.
  - inversion Hall as [|? ? (s & e & Hs & He) Hrest]; subst.
    pose proof (srt_block_ok ws idx seg s e Hs He) as Hblk.
    set (blk := of_int idx ++ newline ++ s ++ " --> " ++ e ++ newline
                ++ labelled ws seg (seg_text_stripped seg) ++ newline) in Hblk.
    destruct (IH (idx + 1) (lines ++ [blk])%list Hrest)
      as (blocks & Hrun & Hlen & Hnth).
    exists (blk :: blocks). simpl srt_lines. rewrite Hblk. simpl rbind.
    rewrite Hrun, <- app_assoc. split; [reflexivity|].
    split; [simpl; now rewrite Hlen|].
    intros [|i] seg' Hi; simpl in Hi.
    + injection Hi as <-. eexists. split; [reflexivity|].
      now rewrite Z.add_0_r.
    + destruct (Hnth i seg' Hi) as (blk' & Hb & Hk).
      exists blk'. split; [assumption|].
      rewrite <- Hk. f_equal. lia.
Qed.

(** C9 (amended).  Subtitle-mode formatting of a segment list whose times
    can all be formatted emits one block per segment, in order.  The block
    of the segment at position i (from 0) is the number i + 1 in decimal, a
    newline, the formatted start time, " --> ", the formatted end time, a
    newline, the stripped text (after the speaker label and ": " when labels
    are enabled and the segment has a speaker value), and a newline.  A
    segment whose text is empty after stripping gets its block like any
    other, with an empty text: the loop body has no test on the text.  The
    blocks are joined with newlines, and the final [strip] removes only
    whitespace at the end. *)
Theorem subtitle_mode_keeps_every_segment (segments : list segment) (with_speaker : bool) :
  Forall times_formattable segments ->
  exists blocks trailing,
    length blocks = length segments
    /\ (forall (i : nat) seg, segments !! i = Some seg ->
          exists s e,
            format_srt_time (start_of seg) = Ok s
            /\ format_srt_time (end_of seg) = Ok e
            /\ blocks !! i
               = Some (of_int (Z.of_nat i + 1) ++ newline ++ s ++ " --> " ++ e
                       ++ newline ++ labelled with_speaker seg (seg_text_stripped seg)
                       ++ newline)
            /\ (seg_text_stripped seg = "" -> seg_has_speaker seg = false ->
                blocks !! i
                = Some (of_int (Z.of_nat i + 1) ++ newline ++ s ++ " --> " ++ e
                        ++ newline ++ newline)))
    /\ build_output_text segments true with_speaker
       = Ok (strip (join newline blocks))
    /\ join newline blocks = strip (join newline blocks) ++ trailing
    /\ all_space trailing = true.
Proof.
  intros Hall.
  destruct (srt_lines_spec with_speaker segments 1 [] Hall)
    as (blocks & Hrun & Hlen & Hnth).
  assert (Hblk : forall (i : nat) seg, segments !! i = Some seg ->
            exists s e,
              format_srt_time (start_of seg) = Ok s
              /\ format_srt_time (end_of seg) = Ok e
              /\ blocks !! i
                 = Some (of_int (Z.of_nat i + 1) ++ newline ++ s ++ " --> " ++ e
                         ++ newline ++ labelled with_speaker seg (seg_text_stripped seg)
                         ++ newline)).
  { intros i seg Hi. destruct (Hnth i seg Hi) as (blk & Hb & Hk).
    destruct (proj1 (Forall_lookup _ _) Hall i seg Hi) as (s & e & Hs & He).
    exists s, e. split; [assumption|]. split; [assumption|].
    rewrite (srt_block_ok with_speaker _ seg s e Hs He) in Hk.
    injection Hk as <-. rewrite Hb. do 2 f_equal. f_equal. lia. }
  assert (Hl : lstrip (join newline blocks) = join newline blocks).
  { apply lstrip_id. destruct segments as [|seg segs].
    - destruct blocks; [reflexivity|discriminate].
    - destruct (Hblk O seg eq_refl) as (s & e & _ & _ & Hb).
      destruct blocks as [|b blocks]; [discriminate|].
      injection Hb as ->. rewrite join_cons.
      destruct blocks; reflexivity. }
  destruct (rstrip_suffix (join newline blocks)) as (w & Hw & Hsp).
  exists blocks, w. split; [assumption|]. split.
  - intros i seg Hi. destruct (Hblk i seg Hi) as (s & e & Hs & He & Hb).
    exists s, e. repeat split; try assumption.
    intros Ht Hno. rewrite Hb. unfold labelled.
    rewrite Hno, Ht, andb_false_r. reflexivity.
  - unfold build_output_text. rewrite Hrun. simpl.
    unfold strip. rewrite Hl. repeat split; assumption.
Qed.

End Subtitles.

(** ** Translation *)

Section Translation.
Import PyStr.
Variable e : env.
Variables detected_language target_code : string.

(** The loop of lines 203-212 treats every segment on its own. *)
Lemma translate_segments_map segs :
  translate_segments e detected_language target_code segs
  = map (translate_segment e detected_language target_code) segs.
Proof. induction segs as [|seg segs IH]; simpl; [reflexivity|now rewrite IH]. Qed.

(** What the loop of lines 203-212 does when a translation call fails.  It
    fails nothing: the loop goes on and returns a segment for every segment,
    and the outcome for every segment depends on that segment alone.  The
    segment whose call failed keeps its times and speaker; its text is not
    kept as it was but assigned [text_val], the text with the surrounding
    whitespace stripped (line 212), so that it reads the same once
    stripped. *)
Theorem failed_translation_keeps_stripped_text (segments : list segment) :
  length (translate_segments e detected_language target_code segments)
  = length segments
  /\ (forall (i : nat) seg,
        segments !! i = Some seg ->
        translate_segments e detected_language target_code segments !! i
        = Some (translate_segment e detected_language target_code seg))
  /\ (forall seg err,
        truthy (seg_text_stripped seg) = true ->
        env_translate e detected_language target_code (seg_text_stripped seg)
        = Raise err ->
        translate_segment e detected_language target_code seg
        = mk_segment (seg_start seg) (seg_end seg)
                     (Some (strip (default "" (seg_text seg))))
                     (seg_speaker seg)
        /\ seg_text_stripped (translate_segment e detected_language target_code seg)
           = seg_text_stripped seg).
Proof.
  rewrite translate_segments_map. split; [apply length_map|]. split.
  - intros i seg Hi. rewrite list_lookup_fmap, Hi. reflexivity.
  - intros seg err Ht Hfail. unfold translate_segment.
    rewrite Ht, Hfail. simpl. split; [reflexivity|].
    unfold seg_text_stripped, seg_set_text. simpl.
    unfold strip. rewrite lstrip_id by apply rstrip_head, lstrip_head.
    apply rstrip_idem.
Qed.

End Translation.

(** ** Cancellation *)

Section Cancellation.
Variable e : env.
Variables with_timestamp with_speaker : bool.
Variables target_language precision : string.

Let cfg : quality := default quality_bom (QUALITY_CONFIG !! precision).

(** C3 (amended). When the stop event is set once the transcription stage
    has returned and before the check that follows it, the pipeline stops
    there: only audio loading and transcription have run, and it returns
    the flag True with the text formatted from the segments exactly as
    transcription produced them -- not aligned, not labelled, not
    translated -- together with those segments and the detected language. *)
Theorem cancel_after_transcription_returns_partial
        (tr : transcription) (text : string) :
  env_load_audio e = Ok tt ->
  env_transcribe e (q_model cfg) (q_batch_size cfg) = Ok tr ->
  build_output_text (default [] (tr_segments tr)) with_timestamp false = Ok text ->
  exec (Some StTranscribe) false
       (transcribe_with_cancel e with_timestamp with_speaker target_language precision)
  = Ok (true, text, default [] (tr_segments tr), language_or_pt (tr_language tr))
  /\ stages_run (Some StTranscribe) false
       (transcribe_with_cancel e with_timestamp with_speaker target_language precision)
     = [StLoadAudio; StTranscribe].
Proof.
  intros Hload Htr Htext. unfold transcribe_with_cancel, call, is_set.
  fold cfg. rewrite Hload, Htr. simpl. rewrite Htext. simpl. auto.
Qed.

End Cancellation.

(** *** One job alone, as a run of the server *)

(** A handler alone in flight, run along its [schedule], ends with the
    answer and the record that [conclude] computes from [exec]. *)
Lemma run_schedule (signal : option stage) (p : prog pipeline_result) :
  forall c fr set,
    frames c = [fr] ->
    fr_prog fr = p ->
    current_stop_event (srv c) = Some (fr_stop_event fr) ->
    events (srv c) !! fr_stop_event fr = Some set ->
    last (fst (run (schedule signal set p) c))
    = Some (OutTranscribe
              (Some (fst (conclude (fr_env fr) (fr_req fr) (exec signal set p)))))
    /\ last_export_payload (srv (snd (run (schedule signal set p) c)))
       = match snd (conclude (fr_env fr) (fr_req fr) (exec signal set p)) with
         | Some pl => Some pl
         | None => last_export_payload (srv c)
         end
    /\ current_task_lock (srv (snd (run (schedule signal set p) c))) = false
    /\ frames (snd (run (schedule signal set p) c)) = [].
Proof.
  induction p as [r|err|st k IH|k IH]; intros c fr set Hfr Hp Hcse Hev.
  - simpl. unfold transcribe_advance. rewrite Hfr. simpl. rewrite Hp.
    destruct (transcribe_tail (fr_env fr) (fr_req fr) r) as [[pl body]|err]; simpl;
      destruct (current_task_lock (srv c)); auto.
  - simpl. unfold transcribe_advance. rewrite Hfr. simpl. rewrite Hp. simpl.
    destruct (current_task_lock (srv c)); auto.
  - assert (Hstep : step (EvAdvance 0) c
                    = (OutTranscribe None, mk_config (srv c) [set_prog k fr])).
    { simpl. unfold transcribe_advance. rewrite Hfr. simpl. rewrite Hp. reflexivity. }
    cbn [schedule exec]. destruct (signal_hits signal st) eqn:Hhit.
    + (* the stop arrives right after this stage *)
      set (c2 := mk_config
                   (mk_state (current_task_lock (srv c))
                             (<[fr_stop_event fr := true]> (events (srv c)))
                             (Some (fr_stop_event fr))
                             (last_export_payload (srv c)))
                   [set_prog k fr]).
      assert (Hstop : step EvStop (mk_config (srv c) [set_prog k fr])
                      = (OutStop stopping, c2)).
      { simpl. unfold stop_processing. simpl. rewrite Hcse. reflexivity. }
      cbn [app run]. rewrite Hstep, Hstop.
      specialize (IH c2 (set_prog k fr) (set || true) eq_refl eq_refl eq_refl).
      destruct IH as (H1 & H2 & H3 & H4).
      { simpl. rewrite orb_true_r. apply list_lookup_insert_eq.
        now apply lookup_lt_Some in Hev. }
      destruct (run (schedule signal (set || true) k) c2) as [os c3] eqn:Hrun.
      simpl in *. repeat split; try assumption.
      destruct os as [|o os]; [discriminate|]. rewrite <- H1. reflexivity.
    + cbn [app run]. rewrite Hstep.
      specialize (IH (mk_config (srv c) [set_prog k fr]) (set_prog k fr)
                     (set || false) eq_refl eq_refl Hcse).
      destruct IH as (H1 & H2 & H3 & H4).
      { simpl. now rewrite orb_false_r. }
      destruct (run (schedule signal (set || false) k) _) as [os c3] eqn:Hrun.
      simpl in *. repeat split; try assumption.
      destruct os as [|o os]; [discriminate|]. rewrite <- H1. reflexivity.
  - assert (Hstep : step (EvAdvance 0) c
                    = (OutTranscribe None, mk_config (srv c) [set_prog (k set) fr])).
    { simpl. unfold transcribe_advance. rewrite Hfr. simpl. rewrite Hp, Hev.
      reflexivity. }
    cbn [schedule exec run]. rewrite Hstep.
    specialize (IH set (mk_config (srv c) [set_prog (k set) fr]) (set_prog (k set) fr)
                   set eq_refl eq_refl Hcse Hev).
    destruct IH as (H1 & H2 & H3 & H4).
    destruct (run (schedule signal set (k set)) _) as [os c3] eqn:Hrun.
    simpl in *. repeat split; try assumption.
    destruct os as [|o os]; [discriminate|]. rewrite <- H1. reflexivity.
Qed.

(** [transcribe_alone] is a run of the server: a submission that finds the
    slot free, followed by the schedule of its own handler, ends with the
    answer of [transcribe_alone]; its record, if any, is the one stored; and
    the slot is free again. *)
Lemma run_alone (signal : option stage) (c : config) (req : request) (e : env) :
  reachable c ->
  current_task_lock (srv c) = false ->
  let evs := EvTranscribe req e :: schedule signal false (transcribe_body e req) in
  last (fst (run evs c))
  = Some (OutTranscribe (Some (fst (transcribe_alone signal e req))))
  /\ last_export_payload (srv (snd (run evs c)))
     = match snd (transcribe_alone signal e req) with
       | Some pl => Some pl
       | None => last_export_payload (srv c)
       end
  /\ current_task_lock (srv (snd (run evs c))) = false.
Proof.
  intros Hr Hfree evs.
  assert (Hnil : frames c = []).
  { apply reachable_gate_inv in Hr. unfold gate_inv in Hr.
    rewrite Hfree in Hr. tauto. }
  subst evs. cbn [run step]. unfold transcribe_enter, try_acquire.
  rewrite Hfree, Hnil. cbn [negb app].
  set (fr := mk_frame req e (length (events (srv c))) (transcribe_body e req)).
  set (c1 := mk_config _ [fr]).
  destruct (run_schedule signal (transcribe_body e req) c1 fr false
                         eq_refl eq_refl eq_refl)
    as (H1 & H2 & H3 & _).
  { simpl. apply list_lookup_middle. reflexivity. }
  destruct (run (schedule signal false (transcribe_body e req)) c1) as [os c2].
  cbn [fst snd] in *. unfold transcribe_alone.
  split; [|split; assumption].
  rewrite last_cons, H1. reflexivity.
Qed.

(** Whether subtitle formatting succeeds depends on the times alone. *)
Lemma srt_block_ok_inv ws idx seg blk :
  srt_block ws idx seg = Ok blk -> times_formattable seg.
Proof.
  unfold srt_block, times_formattable, start_of, end_of, rbind.
  destruct (format_srt_time (default PyFloat.zero (seg_start seg))) as [s|];
    [|discriminate].
  destruct (format_srt_time
              (default (default PyFloat.zero (seg_start seg)) (seg_end seg)))
    as [t|]; [|discriminate].
  intros _. eauto.
Qed.

Lemma srt_lines_ok_inv ws segs : forall idx lines ls,
  srt_lines ws idx segs lines = Ok ls -> Forall times_formattable segs.
Proof.
  induction segs as [|seg segs IH]; intros idx lines ls H; [constructor|].
  simpl in H. destruct (srt_block ws idx seg) as [blk|] eqn:Hb; [|discriminate].
  simpl in H. constructor; [now apply srt_block_ok_inv in Hb | eauto].
Qed.

Lemma build_srt_any_speaker segs ws ws' t :
  build_output_text segs true ws = Ok t ->
  exists t', build_output_text segs true ws' = Ok t'.
Proof.
  unfold build_output_text. intros H.
  destruct (srt_lines ws 1 segs []) as [ls|] eqn:Hl; [|discriminate].
  apply srt_lines_ok_inv in Hl.
  destruct (srt_lines_spec ws' segs 1 [] Hl) as (blocks & -> & _). simpl. eauto.
Qed.

(** C10. When the stop event is found set at the check that follows
    transcription, the text of the answer is the segments formatted with the
    timestamp option of the request and with speaker labels off, whatever
    the request asked for labels; the answer carries the aborted mark.  (The
    record stored for export is still rendered with the request's own label
    option.) *)
Theorem cancelled_answer_is_rendered_without_labels
        (e : env) (req : request) (tr : transcription) (text : string) :
  let cfg := default quality_bom (QUALITY_CONFIG !! precisao req) in
  env_save_upload e = Ok tt ->
  env_convert_to_wav e = Ok tt ->
  env_load_audio e = Ok tt ->
  env_transcribe e (q_model cfg) (q_batch_size cfg) = Ok tr ->
  build_output_text (default [] (tr_segments tr)) (timestamp req) false = Ok text ->
  exists pl,
    transcribe_alone (Some StTranscribe) e req
    = (Http200 (mk_transcribe_response text true (env_uuid4 e) (timestamp req)
                                       (language_or_pt (tr_language tr))),
       Some pl)
    /\ build_output_text (default [] (tr_segments tr)) false (diferenciar_narrador req)
       = Ok (p_txt pl)
    /\ p_srt_enabled pl = timestamp req.
Proof.
  intros cfg Hsave Hconv Hload Htr Htext.
  unfold transcribe_alone, transcribe_body, transcribe_with_cancel, call, is_set.
  fold cfg. rewrite Hsave, Hconv, Hload, Htr. simpl. rewrite Htext. simpl.
  unfold transcribe_tail.
  set (segs := default [] (tr_segments tr)) in *.
  destruct (timestamp req) eqn:Hts.
  - destruct (build_srt_any_speaker segs false (diferenciar_narrador req) text Htext)
      as (srt & Hsrt).
    unfold build_output_text in Hsrt.
    destruct (srt_lines (diferenciar_narrador req) 1 segs []) as [ls|];
      [|discriminate].
    simpl. eexists. split; [reflexivity|]. split; reflexivity.
  - simpl. eexists. split; [reflexivity|]. split; reflexivity.
Qed.

(** ** Subtitle times

    The arithmetic of [format_srt_time] on binary64 values. *)

Section Digits.

Lemma digits2_pos_bounds (p : positive) :
  2 ^ (Zpos (digits2_pos p) - 1) <= Zpos p < 2 ^ Zpos (digits2_pos p).
Proof.
  induction p as [p IH|p IH|]; simpl digits2_pos.
  - rewrite Pos2Z.inj_succ.
    replace (Z.succ (Zpos (digits2_pos p)) - 1) with (Z.succ (Zpos (digits2_pos p) - 1)) by lia.
    rewrite !Z.pow_succ_r by lia. lia.
  - rewrite Pos2Z.inj_succ.
    replace (Z.succ (Zpos (digits2_pos p)) - 1) with (Z.succ (Zpos (digits2_pos p) - 1)) by lia.
    rewrite !Z.pow_succ_r by lia. lia.
  - simpl. lia.
Qed.

Lemma Zdigits2_bounds (m : Z) :
  0 < m -> 2 ^ (Zdigits2 m - 1) <= m < 2 ^ Zdigits2 m.
Proof.
  destruct m as [|p|p]; try lia. intros _. apply digits2_pos_bounds.
Qed.

Lemma Zdigits2_nonneg (m : Z) : 0 <= Zdigits2 m.
Proof. destruct m; simpl; lia. Qed.

(** a number below [2^k] has at most [k] binary digits *)
Lemma Zdigits2_le (m k : Z) : 0 <= m < 2 ^ k -> 0 <= k -> Zdigits2 m <= k.
Proof.
  intros [Hm Hk] Hk0.
  destruct (Z.eq_dec m 0) as [->|Hne]; [simpl; lia|].
  pose proof (Zdigits2_bounds m ltac:(lia)) as [Hlo _].
  destruct (Z_lt_le_dec k (Zdigits2 m)) as [Hlt|]; [|assumption].
  exfalso.
  assert (2 ^ k <= 2 ^ (Zdigits2 m - 1)) by (apply Z.pow_le_mono_r; lia).
  lia.
Qed.

(** a number from [2^k] on has more than [k] binary digits *)
Lemma Zdigits2_gt (m k : Z) : 2 ^ k <= m -> 0 <= k -> k < Zdigits2 m.
Proof.
  intros Hm Hk0.
  assert (0 < m) by (pose proof (Z.pow_pos_nonneg 2 k); lia).
  pose proof (Zdigits2_bounds m ltac:(lia)) as [_ Hhi].
  destruct (Z_lt_le_dec k (Zdigits2 m)) as [|Hle]; [assumption|].
  exfalso.
  assert (2 ^ Zdigits2 m <= 2 ^ k) by (apply Z.pow_le_mono_r; lia).
  lia.
Qed.

End Digits.

Section Shift.

Lemma iter_pos_swap {A} (f : A -> A) (p : positive) : forall x,
  SpecFloat.iter_pos f p (f x) = f (SpecFloat.iter_pos f p x).
Proof.
  induction p as [p IH|p IH|]; intros x; simpl.
  - rewrite !IH. reflexivity.
  - rewrite !IH. reflexivity.
  - reflexivity.
Qed.

Lemma iter_pos_iter {A} (f : A -> A) (p : positive) : forall x,
  SpecFloat.iter_pos f p x = Pos.iter f x p.
Proof.
  induction p as [p IH|p IH|]; intros x; simpl.
  - rewrite !iter_pos_swap, !IH. reflexivity.
  - rewrite !IH. reflexivity.
  - reflexivity.
Qed.

Lemma shr_1_m (mrs : shr_record) :
  0 <= shr_m mrs -> shr_m (shr_1 mrs) = Z.div2 (shr_m mrs).
Proof.
  destruct mrs as [m r s]; simpl. intros Hm.
  destruct m as [|[p|p|]|p]; try reflexivity; lia.
Qed.

Lemma div2_nonneg (m : Z) : 0 <= m -> 0 <= Z.div2 m.
Proof. intros. rewrite Z.div2_div. apply Z.div_pos; lia. Qed.

Lemma iter_shr_1_m (p : positive) (mrs : shr_record) :
  0 <= shr_m mrs ->
  shr_m (Pos.iter shr_1 mrs p) = Pos.iter Z.div2 (shr_m mrs) p
  /\ 0 <= shr_m (Pos.iter shr_1 mrs p).
Proof.
  intros Hm.
  induction p as [|p IH] using Pos.peano_ind.
  - simpl. rewrite shr_1_m by assumption. split; [reflexivity|now apply div2_nonneg].
  - rewrite !Pos.iter_succ. destruct IH as [IH1 IH2].
    rewrite shr_1_m by assumption. rewrite IH1.
    split; [reflexivity|]. rewrite <- IH1. now apply div2_nonneg.
Qed.

Lemma shr_m_value (m : Z) (l : location) (e n : Z) :
  0 <= m ->
  shr_m (fst (shr (shr_record_of_loc m l) e n))
  = (if 0 <? n then m / 2 ^ n else m)
  /\ snd (shr (shr_record_of_loc m l) e n) = (if 0 <? n then e + n else e).
Proof.
  intros Hm.
  assert (Hrec : shr_m (shr_record_of_loc m l) = m)
    by (destruct l as [|[]]; reflexivity).
  destruct n as [|p|p]; simpl; auto.
  rewrite iter_pos_iter.
  destruct (iter_shr_1_m p (shr_record_of_loc m l)) as [-> _]; [now rewrite Hrec|].
  rewrite Hrec. change (Pos.iter Z.div2 m p) with (Z.shiftr m (Zpos p)).
  rewrite Z.shiftr_div_pow2 by lia. auto.
Qed.

End Shift.


Section Rounding.
Import PyFloat.

Lemma fexp_ge (z : Z) : z - 53 <= fexp prec emax z /\ -1074 <= fexp prec emax z.
Proof. unfold fexp, emin, prec, emax. lia. Qed.

Lemma fexp_eq (z : Z) : -1021 <= z -> fexp prec emax z = z - 53.
Proof. unfold fexp, emin, prec, emax. lia. Qed.

(** After [shr_fexp] the mantissa fits in 53 bits. *)
Lemma shr_fexp_digits (m e : Z) (l : location) :
  0 <= m ->
  0 <= shr_m (fst (shr_fexp prec emax m e l))
  /\ Zdigits2 (shr_m (fst (shr_fexp prec emax m e l))) <= 53.
Proof.
  intros Hm. unfold shr_fexp.
  set (n := fexp prec emax (Zdigits2 m + e) - e).
  destruct (shr_m_value m l e n Hm) as [-> _].
  pose proof (fexp_ge (Zdigits2 m + e)) as [Hn _]. fold n in Hn.
  pose proof (Zdigits2_nonneg m) as Hd.
  destruct (Z.ltb_spec 0 n) as [Hpos|Hle].
  - assert (Hp : 0 < 2 ^ n) by (apply Z.pow_pos_nonneg; lia).
    split; [apply Z.div_pos; lia|].
    apply Zdigits2_le; [|lia]. split; [apply Z.div_pos; lia|].
    apply Z.div_lt_upper_bound; [lia|].
    destruct (Z.eq_dec m 0) as [->|Hne].
    { pose proof (Z.pow_pos_nonneg 2 53). lia. }
    pose proof (Zdigits2_bounds m ltac:(lia)) as [_ Hhi].
    assert (2 ^ Zdigits2 m <= 2 ^ (n + 53)) by (apply Z.pow_le_mono_r; lia).
    rewrite Z.pow_add_r in H by lia. lia.
  - split; [assumption|]. subst n. lia.
Qed.

Lemma round_nearest_even_nonneg (m : Z) (l : location) :
  0 <= m -> 0 <= round_nearest_even m l.
Proof.
  intros Hm. destruct l as [|[]]; simpl; try lia. destruct (Z.even m); lia.
Qed.

(** A finite result of [binary_round_aux] has a mantissa of at most 53
    bits and the sign it was given. *)
Lemma binary_round_aux_digits (sx : bool) (mx ex : Z) (lx : location) s m e :
  0 <= mx ->
  binary_round_aux prec emax sx mx ex lx = S754_finite s m e ->
  s = sx /\ Zpos (digits2_pos m) <= 53.
Proof.
  intros Hmx. unfold binary_round_aux.
  pose proof (shr_fexp_digits mx ex lx Hmx) as [H1 _].
  destruct (shr_fexp prec emax mx ex lx) as [mrs' e'] eqn:E1. simpl in H1.
  pose proof (shr_fexp_digits
                (round_nearest_even (shr_m mrs') (loc_of_shr_record mrs')) e'
                loc_Exact (round_nearest_even_nonneg _ _ H1)) as [_ H2].
  destruct (shr_fexp prec emax
              (round_nearest_even (shr_m mrs') (loc_of_shr_record mrs')) e' loc_Exact)
    as [mrs'' e''] eqn:E2. simpl in H2.
  destruct (shr_m mrs'') as [|p|p]; try discriminate.
  destruct (e'' <=? emax - prec); [|discriminate].
  intros [= <- <- <-]. auto.
Qed.

Lemma binary_round_aux_not_nan (sx : bool) (mx ex : Z) (lx : location) :
  0 <= mx -> binary_round_aux prec emax sx mx ex lx <> S754_nan.
Proof.
  intros Hmx. unfold binary_round_aux.
  pose proof (shr_fexp_digits mx ex lx Hmx) as [H1 _].
  destruct (shr_fexp prec emax mx ex lx) as [mrs' e'] eqn:E1. simpl in H1.
  pose proof (shr_fexp_digits
                (round_nearest_even (shr_m mrs') (loc_of_shr_record mrs')) e'
                loc_Exact (round_nearest_even_nonneg _ _ H1)) as [H2 _].
  destruct (shr_fexp prec emax
              (round_nearest_even (shr_m mrs') (loc_of_shr_record mrs')) e' loc_Exact)
    as [mrs'' e''] eqn:E2. simpl in H2.
  destruct (shr_m mrs'') as [|p|p]; try discriminate; [|lia].
  destruct (e'' <=? emax - prec); discriminate.
Qed.

(** The product [x * 1000.0] of a finite non-negative [x] is a zero, an
    infinity, or a finite non-negative float of at most 53 bits. *)
Lemma mul_f1000_shape (m : positive) (e : Z) :
  match mul (S754_finite false m e) f1000 with
  | S754_finite s m' _ => s = false /\ Zpos (digits2_pos m') <= 53
  | S754_nan => False
  | _ => True
  end.
Proof.
  unfold mul, f1000, SFmul. simpl xorb.
  destruct (binary_round_aux prec emax false (Zpos (m * 8796093022208000)) (e + -43)
                             loc_Exact) as [s|s| |s m' e'] eqn:E; auto.
  - eapply binary_round_aux_not_nan; [|exact E]. lia.
  - eapply binary_round_aux_digits; [|exact E]. lia.
Qed.

End Rounding.

Section Division.
Import PyFloat.

Lemma to_int_neg_exp (m : positive) (e : Z) :
  e < 0 -> to_int (S754_finite false m e) = Ok (Zpos m / 2 ^ (- e)).
Proof.
  intros He. destruct e as [|k|k]; try lia. simpl.
  change (Z.pos m / 2 ^ Z.pos k) with (Zpos m / 2 ^ Zpos k).
  now rewrite <- Z.shiftr_div_pow2 by lia.
Qed.

(** the second half of [binary_round_aux]: renormalising a rounded
    mantissa does not change the integer part of the value *)
Lemma renormalise_trunc (m1 e1 : Z) :
  2 ^ 52 <= m1 <= 2 ^ 53 -> -63 <= e1 <= -5 ->
  to_int (let '(mrs, e2) := shr_fexp prec emax m1 e1 loc_Exact in
          match shr_m mrs with
          | Z0 => S754_zero false
          | Zpos m => if e2 <=? emax - prec then S754_finite false m e2
                      else S754_infinity false
          | Zneg _ => S754_nan
          end)
  = Ok (m1 / 2 ^ (- e1)).
Proof.
  intros Hm He.
  assert (Hd : 52 < Zdigits2 m1 <= 54).
  { split; [apply Zdigits2_gt; lia|].
    apply Zdigits2_le; [|lia]. change (2 ^ 54) with (2 * 2 ^ 53). lia. }
  unfold shr_fexp.
  rewrite fexp_eq by lia.
  set (n2 := Zdigits2 m1 + e1 - 53 - e1).
  destruct (shr_m_value m1 loc_Exact e1 n2 ltac:(lia)) as [Hv He2].
  destruct (shr (shr_record_of_loc m1 loc_Exact) e1 n2) as [mrs e2].
  simpl in Hv, He2. rewrite Hv. subst e2.
  assert (Hn2 : n2 = 0 \/ n2 = 1) by (subst n2; lia).
  assert (Hq : (if 0 <? n2 then m1 / 2 ^ n2 else m1) = m1 / 2 ^ n2).
  { destruct Hn2 as [-> | ->]; simpl; [now rewrite Z.div_1_r|reflexivity]. }
  rewrite Hq.
  assert (Hpos : 0 < m1 / 2 ^ n2).
  { destruct Hn2 as [-> | ->]; [rewrite Z.div_1_r; lia|].
    change (2 ^ 1) with 2. change (2 ^ 52) with (2 * 2 ^ 51) in Hm.
    apply Z.div_str_pos. lia. }
  destruct (m1 / 2 ^ n2) as [|m2|m2] eqn:Em2; try lia.
  assert (He2 : (if 0 <? n2 then e1 + n2 else e1) = e1 + n2).
  { destruct Hn2 as [-> | ->]; simpl; lia. }
  rewrite He2.
  destruct (Z.leb_spec (e1 + n2) (emax - prec)) as [_|Hbad];
    [|unfold emax, prec in Hbad; lia].
  rewrite to_int_neg_exp by lia. f_equal.
  rewrite <- Em2, Z.div_div by (try apply Z.pow_pos_nonneg; lia).
  rewrite <- Z.pow_add_r by lia. f_equal. f_equal. lia.
Qed.

Lemma round_nearest_even_cases (m : Z) (l : location) :
  round_nearest_even m l = if rounds_up l m then m + 1 else m.
Proof.
  destruct l as [|[]]; simpl; try reflexivity.
  rewrite <- Z.negb_even. destruct (Z.even m); reflexivity.
Qed.

(** Rounding a quotient of 53 or 54 bits and taking the integer part. *)
Lemma binary_round_aux_trunc (q e' : Z) (lz : location) :
  2 ^ 52 <= q < 2 ^ 54 -> -63 <= e' <= -6 ->
  let n1 := Zdigits2 q - 53 in
  exists m1,
    to_int (binary_round_aux prec emax false q e' lz) = Ok (m1 / 2 ^ (- (e' + n1)))
    /\ (n1 = 0 \/ n1 = 1)
    /\ (m1 = q / 2 ^ n1
        \/ (m1 = q / 2 ^ n1 + 1
            /\ (n1 = 0 /\ (lz = loc_Inexact Eq \/ lz = loc_Inexact Gt)
                \/ n1 = 1 /\ Z.odd q = true))).
Proof.
  intros Hq He n1.
  assert (Hd : 52 < Zdigits2 q <= 54).
  { split; [apply Zdigits2_gt; lia|apply Zdigits2_le; lia]. }
  assert (Hn1 : n1 = 0 \/ n1 = 1) by (subst n1; lia).
  unfold binary_round_aux, shr_fexp at 1.
  rewrite fexp_eq by lia.
  replace (Zdigits2 q + e' - 53 - e') with n1 by (subst n1; lia).
  destruct Hn1 as [Hn|Hn]; rewrite Hn.
  - (* 53 bits: no shift before rounding *)
    simpl shr. cbv iota beta.
    assert (Hrec : shr_m (shr_record_of_loc q lz) = q)
      by (destruct lz as [|[]]; reflexivity).
    assert (Hloc : loc_of_shr_record (shr_record_of_loc q lz) = lz)
      by (destruct lz as [|[]]; reflexivity).
    rewrite Hrec, Hloc, round_nearest_even_cases.
    assert (Hq53 : q < 2 ^ 53).
    { pose proof (Zdigits2_bounds q ltac:(lia)) as [_ Hhi].
      replace (Zdigits2 q) with 53 in Hhi by (subst n1; lia). assumption. }
    exists (if rounds_up lz q then q + 1 else q).
    rewrite renormalise_trunc by (destruct (rounds_up lz q); lia).
    rewrite Z.add_0_r, Z.div_1_r.
    split; [reflexivity|]. split; [now left|].
    destruct (rounds_up lz q) eqn:Hup; [right|now left].
    split; [reflexivity|]. left. split; [reflexivity|].
    destruct lz as [|[]]; try discriminate; auto.
  - (* 54 bits: one bit is shifted out first *)
    change (shr (shr_record_of_loc q lz) e' 1)
      with (shr_1 (shr_record_of_loc q lz), e' + 1).
    cbv iota beta.
    assert (Hq54 : 2 ^ 53 <= q).
    { pose proof (Zdigits2_bounds q ltac:(lia)) as [Hlo _].
      replace (Zdigits2 q - 1) with 53 in Hlo by (subst n1; lia). assumption. }
    assert (Hm : shr_m (shr_1 (shr_record_of_loc q lz)) = q / 2).
    { rewrite shr_1_m, Z.div2_div; destruct lz as [|[]]; simpl; try reflexivity; lia. }
    assert (Hup : rounds_up (loc_of_shr_record (shr_1 (shr_record_of_loc q lz))) (q / 2)
                  = true -> Z.odd q = true).
    { destruct q as [|[p|p|]|p]; try lia; destruct lz as [|[]]; simpl;
        try reflexivity; try discriminate;
        destruct (Z.odd _); discriminate. }
    rewrite Hm, round_nearest_even_cases.
    change (2 ^ 1) with 2.
    change (2 ^ 53) with (2 * 2 ^ 52) in Hq54. change (2 ^ 54) with (2 * 2 ^ 53) in Hq.
    assert (2 ^ 52 <= q / 2 < 2 ^ 53).
    { split; [apply Z.div_le_lower_bound; lia|apply Z.div_lt_upper_bound; lia]. }
    eexists.
    rewrite renormalise_trunc
      by (destruct (rounds_up _ (q / 2)); lia).
    split; [reflexivity|]. split; [now right|].
    destruct (rounds_up _ (q / 2)) eqn:Hr; [right|now left].
    split; [reflexivity|]. right. split; [reflexivity|]. now apply Hup.
Qed.

End Division.

Section TotalSeconds.
Import PyFloat.

Lemma no_overshoot (tms k : Z) :
  0 <= k -> 0 < tms < 86400000000000000 ->
  2 ^ 52 * 1000 <= 2 ^ k * tms ->
  (2 ^ 53 <= tms -> (2 | tms)) ->
  (2 ^ 54 <= tms -> (4 | tms)) ->
  (2 ^ 55 <= tms -> (8 | tms)) ->
  500 < (1000 - tms mod 1000) * 2 ^ k.
Proof.
  intros Hk Ht Hg H2 H4 H8.
  pose proof (Z.mod_pos_bound tms 1000 ltac:(lia)) as Hf.
  pose proof (Z.div_mod tms 1000 ltac:(lia)) as Hdm.
  change (2 ^ 52) with 4503599627370496 in Hg.
  change (2 ^ 53) with 9007199254740992 in H2.
  change (2 ^ 54) with 18014398509481984 in H4.
  change (2 ^ 55) with 36028797018963968 in H8.
  destruct (Z_le_gt_dec 9 k) as [Hbig|Hsmall].
  - assert (2 ^ 9 <= 2 ^ k) by (apply Z.pow_le_mono_r; lia).
    change (2 ^ 9) with 512 in H. nia.
  - assert (Hcases : k = 0 \/ k = 1 \/ k = 2 \/ k = 3 \/ k = 4 \/ k = 5
                     \/ k = 6 \/ k = 7 \/ k = 8) by lia.
    destruct Hcases as [->|[->|[->|[->|[->|[->|[->|[->| ->]]]]]]]];
      simpl Z.pow in *; try lia.
    + destruct (H8 ltac:(lia)) as [c Hc]. lia.
    + destruct (H4 ltac:(lia)) as [c Hc]. lia.
    + destruct (H2 ltac:(lia)) as [c Hc]. lia.
Qed.

Lemma true_divide_trunc (tms : Z) :
  0 <= tms < 86400000000000000 ->
  (2 ^ 53 <= tms -> (2 | tms)) ->
  (2 ^ 54 <= tms -> (4 | tms)) ->
  (2 ^ 55 <= tms -> (8 | tms)) ->
  to_int (true_divide (tms * 1000) 1000000) = Ok (tms / 1000).
Proof.
  intros Ht H2 H4 H8.
  destruct (Z.eq_dec tms 0) as [->|Hne]; [reflexivity|].
  assert (Ha : 1000 <= tms * 1000 < 86400000000000000000) by lia.
  destruct (tms * 1000) as [|pa|pa] eqn:Epa; try lia.
  unfold true_divide, of_Z_exact, SFdiv, SFdiv_core_binary.
  set (a := Zpos pa) in *.
  change (Zdigits2 1000000) with 20. simpl xorb.
  assert (Hd : 10 <= Zdigits2 a <= 67).
  { split.
    - assert (9 < Zdigits2 a); [apply Zdigits2_gt; simpl; lia|lia].
    - apply Zdigits2_le; [|lia]. simpl. lia. }
  rewrite fexp_eq by lia.
  replace (Z.min (Zdigits2 a + 0 - (20 + 0) - 53) (0 - 0)) with (Zdigits2 a - 73) by lia.
  set (s := 73 - Zdigits2 a).
  replace (0 - 0 - (Zdigits2 a - 73)) with s by (subst s; lia).
  assert (Hs : 6 <= s <= 63) by (subst s; lia).
  assert (Hm' : match s with Zpos _ => Z.shiftl a s | Z0 => a | Zneg _ => 0 end
                = a * 2 ^ s).
  { destruct s; try lia. now rewrite Z.shiftl_mul_pow2 by lia. }
  rewrite Hm'.
  assert (Hbnd : 2 ^ 72 <= a * 2 ^ s < 2 ^ 73).
  { pose proof (Zdigits2_bounds a ltac:(lia)) as [Hlo Hhi].
    assert (Hp : 0 < 2 ^ s) by (apply Z.pow_pos_nonneg; lia).
    replace 72 with ((Zdigits2 a - 1) + s) by (subst s; lia).
    replace 73 with (Zdigits2 a + s) by (subst s; lia).
    rewrite !Z.pow_add_r by lia. nia. }
  pose proof (Z_div_mod_eq_full (a * 2 ^ s) 1000000) as Hdm.
  pose proof (Z.mod_pos_bound (a * 2 ^ s) 1000000 ltac:(lia)) as Hr.
  assert (Hde : Z.div_eucl (a * 2 ^ s) 1000000
                = ((a * 2 ^ s) / 1000000, (a * 2 ^ s) mod 1000000)).
  { unfold Z.div, Z.modulo. now destruct (Z.div_eucl (a * 2 ^ s) 1000000). }
  rewrite Hde.
  set (q := a * 2 ^ s / 1000000) in *.
  set (r := (a * 2 ^ s) mod 1000000) in *.
  assert (Hq : 2 ^ 52 <= q < 2 ^ 54).
  { change (2 ^ 72) with (2 ^ 52 * 1048576) in Hbnd.
    change (2 ^ 73) with (2 ^ 54 * 524288) in Hbnd.
    pose proof (Z.pow_pos_nonneg 2 52 ltac:(lia) ltac:(lia)).
    pose proof (Z.pow_pos_nonneg 2 54 ltac:(lia) ltac:(lia)).
    split; [apply Z.div_le_lower_bound; nia|apply Z.div_lt_upper_bound; nia]. }
  destruct (binary_round_aux_trunc q (Zdigits2 a - 73) (new_location 1000000 r)
                                   Hq ltac:(lia))
    as (m1 & -> & Hn1 & Hm1).
  f_equal.
  set (n1 := Zdigits2 q - 53) in *.
  set (k := - (Zdigits2 a - 73 + n1)).
  assert (Hk : 0 <= k /\ s = k + n1) by (subst k s; lia).
  destruct Hk as [Hk0 Hsk].
  assert (Hpk : 0 < 2 ^ k) by (apply Z.pow_pos_nonneg; lia).
  assert (Hpn : 0 < 2 ^ n1) by (apply Z.pow_pos_nonneg; lia).
  (* the quotient before rounding has the right integer part *)
  assert (Hfloor : q / 2 ^ n1 / 2 ^ k = tms / 1000).
  { rewrite Z.div_div by lia. unfold q. rewrite Z.div_div by lia.
    rewrite <- Z.pow_add_r by lia.
    replace (n1 + k) with s by lia.
    rewrite Z.div_mul_cancel_r by lia.
    rewrite <- Epa.
    replace 1000000 with (1000 * 1000) by reflexivity.
    now rewrite Z.div_mul_cancel_r by lia. }
  destruct Hm1 as [->|[-> Hup]]; [assumption|].
  (* rounded up: the integer part could only change at a multiple of 2^k *)
  rewrite <- Hfloor.
  set (q1 := q / 2 ^ n1) in *.
  pose proof (Z_div_mod_eq_full q1 (2 ^ k)) as Hq1.
  pose proof (Z.mod_pos_bound q1 (2 ^ k) Hpk) as Hq1r.
  destruct (Z.eq_dec (q1 mod 2 ^ k) (2 ^ k - 1)) as [Hedge|Hin].
  2:{ symmetry. apply (Z.div_unique _ _ (q1 / 2 ^ k) (q1 mod 2 ^ k + 1)); lia. }
  exfalso.
  (* q1 is at least 2^52 and at most tms * 2^k / 1000 *)
  pose proof (Z_div_mod_eq_full q (2 ^ n1)) as Hqq.
  pose proof (Z.mod_pos_bound q (2 ^ n1) Hpn) as Hqr.
  fold q1 in Hqq.
  assert (Hpow : 2 ^ s = 2 ^ k * 2 ^ n1) by (rewrite Hsk, Z.pow_add_r; lia).
  assert (Hq1lo : 2 ^ 52 <= q1).
  { destruct Hn1 as [Hn|Hn]; unfold q1; rewrite Hn.
    - rewrite Z.div_1_r. lia.
    - pose proof (Zdigits2_bounds q ltac:(lia)) as [Hlo _].
      replace (Zdigits2 q - 1) with 53 in Hlo by (subst n1; lia).
      change (2 ^ 53) with (2 ^ 52 * 2) in Hlo. change (2 ^ 1) with 2.
      apply Z.div_le_lower_bound; lia. }
  (* the remainder that rounding saw is at least one half *)
  assert (Hhalf : 2 * (a * 2 ^ s - q1 * (1000000 * 2 ^ n1)) >= 1000000 * 2 ^ n1).
  { destruct Hup as [[Hn Hloc]|[Hn Hodd]].
    - rewrite Hn in *. change (2 ^ 0) with 1 in *.
      assert (q1 = q) by (unfold q1; rewrite Hn; apply Z.div_1_r).
      assert (Hc : 2 * r >= 1000000).
      { unfold new_location in Hloc. simpl in Hloc.
        unfold new_location_even in Hloc.
        destruct (r =? 0); [destruct Hloc; discriminate|].
        destruct (Z.compare_spec (2 * r) 1000000); destruct Hloc as [Hl|Hl];
          try discriminate; lia. }
      lia.
    - rewrite Hn in *. change (2 ^ 1) with 2 in *.
      assert (q mod 2 = 1).
      { rewrite Zmod_odd, Hodd. reflexivity. }
      lia. }
  assert (Hle : q1 * 1000 <= tms * 2 ^ k).
  { assert (q1 * (1000000 * 2 ^ n1) <= a * 2 ^ s) by nia.
    rewrite Hpow, <- Epa in H. nia. }
  pose proof (no_overshoot tms k Hk0 ltac:(lia) ltac:(nia) H2 H4 H8) as Hno.
  pose proof (Z.mod_pos_bound tms 1000 ltac:(lia)) as Hf.
  pose proof (Z_div_mod_eq_full tms 1000) as Htm.
  (* q1 = N * 2^k + 2^k - 1 with N = tms / 1000 *)
  rewrite Hfloor in Hq1.
  rewrite Hpow, <- Epa in Hhalf.
  set (N := tms / 1000) in *. set (f := tms mod 1000) in *.
  set (K := 2 ^ k) in *. set (P := 2 ^ n1) in *.
  assert (q1 = K * N + (K - 1)) by lia.
  assert (2 * (tms * 1000 * K - q1 * 1000000) >= 1000000).
  { assert (2 * (tms * 1000 * K - q1 * 1000000) * P >= 1000000 * P) by nia.
    nia. }
  subst q1. rewrite Htm in H0. nia.
Qed.

End TotalSeconds.


Section SrtTime.
Import PyFloat.

Lemma to_int_floor (x : float) :
  nonneg_finite x = true -> to_int x = Ok (Qround.Qfloor (value x)).
Proof.
  destruct x as [s|s| |s m e]; try discriminate; [reflexivity|].
  destruct s; [discriminate|]. intros _. unfold to_int, value.
  destruct e as [|k|k].
  - f_equal. rewrite Z.shiftl_0_r. change (2 ^ 0) with 1. rewrite Z.mul_1_r.
    unfold Qround.Qfloor, QArith_base.inject_Z. now rewrite Z.div_1_r.
  - f_equal. rewrite Z.shiftl_mul_pow2 by lia.
    unfold Qround.Qfloor, QArith_base.inject_Z. now rewrite Z.div_1_r.
  - f_equal. rewrite Z.shiftr_div_pow2 by lia.
    unfold Qround.Qfloor. now rewrite Pos2Z.inj_pow.
Qed.

(** The integer part of a float of at most 53 bits: from [2^(52+j)] on it
    is a multiple of [2^j]. *)
Lemma to_int_divisible (m : positive) (e t j : Z) :
  Zpos (digits2_pos m) <= 53 ->
  to_int (S754_finite false m e) = Ok t ->
  0 <= j -> 2 ^ (52 + j) <= t -> (2 ^ j | t).
Proof.
  intros Hd Ht Hj Hbig.
  pose proof (digits2_pos_bounds m) as [_ Hhi].
  assert (Hm : Zpos m < 2 ^ 53).
  { assert (2 ^ Zpos (digits2_pos m) <= 2 ^ 53) by (apply Z.pow_le_mono_r; lia). lia. }
  assert (Hp52 : 2 ^ 53 <= 2 ^ (52 + j) \/ j = 0).
  { destruct (Z.eq_dec j 0); [now right|left]. apply Z.pow_le_mono_r; lia. }
  unfold to_int in Ht. injection Ht as <-.
  destruct e as [|k|k].
  - rewrite Z.shiftl_0_r in *. destruct Hp52 as [| ->]; [lia|]. apply Z.divide_1_l.
  - rewrite Z.shiftl_mul_pow2 in * by lia.
    destruct (Z_lt_le_dec (Zpos k) j) as [Hlt|Hge].
    + exfalso.
      assert (2 ^ Zpos k * 2 ^ 53 <= 2 ^ (52 + j)).
      { rewrite <- Z.pow_add_r by lia. apply Z.pow_le_mono_r; lia. }
      assert (0 < 2 ^ Zpos k) by (apply Z.pow_pos_nonneg; lia). nia.
    + exists (Zpos m * 2 ^ (Zpos k - j)).
      rewrite <- Z.mul_assoc, <- Z.pow_add_r by lia. f_equal. f_equal. lia.
  - rewrite Z.shiftr_div_pow2 in * by lia.
    assert (Zpos m / 2 ^ Zpos k <= Zpos m).
    { apply Z.div_le_upper_bound; [apply Z.pow_pos_nonneg; lia|].
      assert (1 <= 2 ^ Zpos k) by (pose proof (Z.pow_pos_nonneg 2 (Zpos k)); lia). nia. }
    destruct Hp52 as [| ->]; [lia|]. apply Z.divide_1_l.
Qed.

(** [timedelta(milliseconds=ms)] within range keeps the whole count. *)
Lemma of_milliseconds_ok (ms : Z) :
  0 <= ms < 86400000000000000 ->
  exists td,
    Timedelta.of_milliseconds ms = Ok td
    /\ (Timedelta.days td * 86400 + Timedelta.seconds td) * 1000000
       + Timedelta.microseconds td = ms * 1000.
Proof.
  intros Hms. unfold Timedelta.of_milliseconds, Timedelta.max_days.
  pose proof (Z_div_mod_eq_full (ms * 1000) 86400000000) as H1.
  pose proof (Z.mod_pos_bound (ms * 1000) 86400000000 ltac:(lia)) as H2.
  pose proof (Z_div_mod_eq_full ((ms * 1000) mod 86400000000) 1000000) as H3.
  assert (Hd : 0 <= ms * 1000 / 86400000000 <= 999999999).
  { split; [apply Z.div_pos; lia|].
    assert (ms * 1000 / 86400000000 < 1000000000); [|lia].
    apply Z.div_lt_upper_bound; lia. }
  destruct (Z.gtb_spec (ms * 1000 / 86400000000) 2147483647) as [Hbad|_]; [lia|].
  destruct (Z.ltb_spec (ms * 1000 / 86400000000) (-2147483648)) as [Hbad|_]; [lia|].
  cbn [orb].
  destruct (Z.gtb_spec (Z.abs (ms * 1000 / 86400000000)) 999999999) as [Hbad|_];
    [lia|].
  eexists. split; [reflexivity|]. simpl. lia.
Qed.

Section Padding.
Import PyStr.

Lemma length_append (a b : string) :
  String.length (a ++ b) = (String.length a + String.length b)%nat.
Proof. induction a as [|c a IH]; simpl; [reflexivity|now rewrite IH]. Qed.

Lemma length_zeros (n : nat) : String.length (zeros n) = n.
Proof. induction n as [|n IH]; simpl; [reflexivity|now rewrite IH]. Qed.

Lemma length_zfill (w : nat) (s : string) :
  String.length (zfill w s) = Nat.max w (String.length s).
Proof. unfold zfill. rewrite length_append, length_zeros. lia. Qed.

Lemma format_0w_min_width (w : nat) (n : Z) :
  0 <= n -> (w <= String.length (format_0w w n))%nat.
Proof.
  intros Hn. unfold format_0w.
  destruct (Z.ltb_spec n 0) as [|_]; [lia|]. rewrite length_zfill. lia.
Qed.

Lemma format_0w_exact (w : nat) (bound : nat) (n : Z) :
  forallb (fun k => Nat.eqb (String.length (format_0w w (Z.of_nat k))) w)
          (seq 0 bound) = true ->
  0 <= n < Z.of_nat bound ->
  String.length (format_0w w n) = w.
Proof.
  intros Hall Hn. rewrite forallb_forall in Hall.
  specialize (Hall (Z.to_nat n)).
  rewrite Z2Nat.id in Hall by lia.
  apply Nat.eqb_eq, Hall, in_seq. lia.
Qed.

Lemma format_02_width (n : Z) : 0 <= n < 100 -> String.length (format_0w 2 n) = 2%nat.
Proof. apply (format_0w_exact 2 100). vm_compute. reflexivity. Qed.

Lemma format_03_width (n : Z) : 0 <= n < 1000 -> String.length (format_0w 3 n) = 3%nat.
Proof. apply (format_0w_exact 3 1000). vm_compute. reflexivity. Qed.

End Padding.

Lemma to_int_nonneg (m : positive) (e t : Z) :
  to_int (S754_finite false m e) = Ok t -> 0 <= t.
Proof.
  unfold to_int. intros [= <-]. destruct e as [|k|k].
  - now rewrite Z.shiftl_0_r.
  - apply Z.shiftl_nonneg. lia.
  - apply Z.shiftr_nonneg. lia.
Qed.

Lemma format_srt_time_of_ms (x : float) (total_ms : Z) :
  to_int (mul x f1000) = Ok total_ms ->
  0 <= total_ms < Timedelta.ms_limit ->
  (2 ^ 53 <= total_ms -> (2 | total_ms)) ->
  (2 ^ 54 <= total_ms -> (4 | total_ms)) ->
  (2 ^ 55 <= total_ms -> (8 | total_ms)) ->
  format_srt_time x
  = Ok (PyStr.format_0w 2 (total_ms / 1000 / 3600) ++ ":"
        ++ PyStr.format_0w 2 ((total_ms / 1000) mod 3600 / 60) ++ ":"
        ++ PyStr.format_0w 2 ((total_ms / 1000) mod 60) ++ ","
        ++ PyStr.format_0w 3 (total_ms mod 1000)).
Proof.
  intros Hms Hr H2 H4 H8. unfold format_srt_time. rewrite Hms. simpl rbind.
  destruct (of_milliseconds_ok total_ms Hr) as (td & -> & Htd). simpl rbind.
  unfold Timedelta.total_seconds. rewrite Htd.
  rewrite (true_divide_trunc total_ms Hr H2 H4 H8). reflexivity.
Qed.

(** C4 (amended).  For every finite non-negative seconds value whose
    product with 1000 is finite and has an integer part below
    86 400 000 x 10^9 -- the millisecond count of [timedelta]'s 10^9 days --
    [format_srt_time] returns HH:MM:SS,mmm with
    total milliseconds = floor(seconds x 1000), the product being the
    binary64 one; total seconds = total milliseconds div 1000;
    hours = total seconds div 3600; minutes = (total seconds mod 3600) div 60;
    seconds = total seconds mod 60; milliseconds = total milliseconds mod 1000;
    hours padded with zeros to at least two digits, minutes and seconds to
    exactly two, milliseconds to exactly three.  In particular 1.234 gives
    "00:00:01,234" and 3661.5 gives "01:01:01,500". *)
Theorem format_srt_time_fields :
  (forall x : float,
      nonneg_finite x = true ->
      is_finite (mul x f1000) = true ->
      Qround.Qfloor (value (mul x f1000)) < Timedelta.ms_limit ->
      let total_ms := Qround.Qfloor (value (mul x f1000)) in
      let total_seconds := total_ms / 1000 in
      let hours := total_seconds / 3600 in
      let minutes := (total_seconds mod 3600) / 60 in
      let seconds := total_seconds mod 60 in
      let millis := total_ms mod 1000 in
      format_srt_time x
      = Ok (PyStr.format_0w 2 hours ++ ":" ++ PyStr.format_0w 2 minutes ++ ":"
            ++ PyStr.format_0w 2 seconds ++ "," ++ PyStr.format_0w 3 millis)
      /\ (2 <= String.length (PyStr.format_0w 2 hours))%nat
      /\ String.length (PyStr.format_0w 2 minutes) = 2%nat
      /\ String.length (PyStr.format_0w 2 seconds) = 2%nat
      /\ String.length (PyStr.format_0w 3 millis) = 3%nat)
  /\ format_srt_time f_1_234 = Ok "00:00:01,234"
  /\ format_srt_time f_3661_5 = Ok "01:01:01,500".
Proof.
  split; [|split; vm_compute; reflexivity].
  intros x Hx Hfin Hlim total_ms total_seconds hours minutes seconds millis.
  assert (Hp : nonneg_finite (mul x f1000) = true
               /\ (forall j, 0 <= j -> 2 ^ (52 + j) <= total_ms -> (2 ^ j | total_ms))
               /\ 0 <= total_ms).
  { destruct x as [s|s| |s m e]; try discriminate.
    - split; [reflexivity|]. split; [|reflexivity].
      intros j _ _. apply Z.divide_0_r.
    - destruct s; [discriminate|].
      pose proof (mul_f1000_shape m e) as Hs.
      unfold total_ms in *.
      destruct (mul (S754_finite false m e) f1000) as [s'|s'| |s' m' e'] eqn:Ep;
        try discriminate; try contradiction.
      + split; [reflexivity|]. split; [|reflexivity].
        intros j _ _. apply Z.divide_0_r.
      + destruct Hs as [-> Hd].
        pose proof (to_int_floor (S754_finite false m' e') eq_refl) as Hti.
        split; [reflexivity|]. split.
        * intros j Hj Hbig. now apply (to_int_divisible m' e' _ j Hd Hti).
        * now apply (to_int_nonneg m' e' _ Hti). }
  destruct Hp as (Hnn & Hdiv & Hpos).
  pose proof (to_int_floor _ Hnn) as Hms. fold total_ms in Hms.
  assert (Hsec : 0 <= total_seconds) by (apply Z.div_pos; lia).
  split.
  - apply format_srt_time_of_ms; try assumption; [unfold total_ms; lia| | |].
    + apply (Hdiv 1); lia.
    + apply (Hdiv 2); lia.
    + apply (Hdiv 3); lia.
  - pose proof (Z.mod_pos_bound total_seconds 3600 ltac:(lia)).
    pose proof (Z.mod_pos_bound total_seconds 60 ltac:(lia)).
    pose proof (Z.mod_pos_bound total_ms 1000 ltac:(lia)).
    repeat split.
    + apply format_0w_min_width. apply Z.div_pos; lia.
    + apply format_02_width. unfold minutes. split; [apply Z.div_pos; lia|].
      apply Z.div_lt_upper_bound; lia.
    + apply format_02_width. unfold seconds. lia.
    + apply format_03_width. unfold millis. lia.
Qed.

End SrtTime.


(** * Examples *)

Example f_1_234_bits : f_1_234 = S754_finite false 5557441940175192 (-52).
Proof. vm_compute. reflexivity. Qed.

Example f_3661_5_bits : f_3661_5 = S754_finite false 8051723650203648 (-41).
Proof. vm_compute. reflexivity. Qed.

(** C4, as stated, fails.  The value 1e14 is finite and non-negative, and
    [format_srt_time] produces no text for it: its 1157407407 days are
    beyond what [timedelta] holds, and the constructor raises. *)
Lemma format_srt_time_out_of_range :
  PyFloat.nonneg_finite f_1e14 = true
  /\ f_1e14 = S754_finite false 6400000000000000 (-6)
  /\ format_srt_time f_1e14
     = Raise (PyException "days=1157407407; must have magnitude <= 999999999").
Proof. repeat split; vm_compute; reflexivity. Qed.

(** C9, as stated, fails.  A segment that starts at 1e14 seconds makes the
    formatter raise: no block is emitted for this one-segment list. *)
Lemma subtitle_mode_raises_on_unformattable_time :
  build_output_text [mk_segment (Some f_1e14) None (Some "hi") None] true false
  = Raise (PyException "days=1157407407; must have magnitude <= 999999999").
Proof. vm_compute. reflexivity. Qed.

(** beyond 2^31 days the conversion of the day count fails first *)
Example format_srt_time_beyond_c_int :
  format_srt_time f_2e14
  = Raise (PyException "Python int too large to convert to C int").
Proof. vm_compute. reflexivity. Qed.

Example format_srt_time_infinity :
  format_srt_time (S754_infinity false)
  = Raise (PyException "cannot convert float infinity to integer").
Proof. vm_compute. reflexivity. Qed.

(** The same two segments in both modes: the blank one is dropped from the
    flat text and keeps its block in the subtitles. *)
Example blank_segment_flat :
  build_output_text [ex_seg_blank; ex_seg_ola] false false = Ok "ola".
Proof. vm_compute. reflexivity. Qed.

Example blank_segment_subtitles :
  build_output_text [ex_seg_blank; ex_seg_ola] true false
  = Ok ("1" ++ PyStr.newline ++ "01:01:01,500 --> 01:01:01,500" ++ PyStr.newline
        ++ PyStr.newline ++ PyStr.newline
        ++ "2" ++ PyStr.newline ++ "00:00:01,234 --> 01:01:01,500" ++ PyStr.newline
        ++ "ola").
Proof. vm_compute. reflexivity. Qed.

(** The three failures of [/export] and the busy failure are told apart by
    status or message. *)
Example failures_distinct :
  Msg.srt_unavailable <> Msg.invalid_format
  /\ Msg.srt_unavailable <> Msg.not_found
  /\ Msg.busy <> Msg.not_found.
Proof. repeat split; vm_compute; discriminate. Qed.

Lemma busy_while_slot_held_witness :
  current_task_lock (srv ex_busy) = true
  /\ transcribe_enter ex_req_srt ex_env_offline ex_busy
     = (Some (HttpError 429 Msg.busy), ex_busy).
Proof.
  apply busy_while_slot_held.
  - apply reachable_step, reachable_init.
  - vm_compute. discriminate.
Defined.

Lemma slot_released_after_job_witness :
  exists evs1 evs2 a c1,
    repeat (EvAdvance 0) 12 = (evs1 ++ EvAdvance 0 :: evs2)%list
    /\ step (EvAdvance 0)
            (snd (run evs1 (snd (transcribe_enter ex_req ex_env_bad_audio init))))
       = (OutTranscribe (Some a), c1)
    /\ current_task_lock (srv c1) = false.
Proof.
  destruct (slot_released_after_job init ex_req ex_env_bad_audio
                                    (repeat (EvAdvance 0) 12) reachable_init eq_refl)
    as (_ & evs1 & evs2 & a & c1 & fr1 & H1 & _ & _ & _ & H2 & H3 & _).
  - apply Nat.ltb_lt. vm_compute. reflexivity.
  - exists evs1, evs2, a, c1. auto.
Defined.

Lemma cancel_after_transcription_witness :
  exec (Some StTranscribe) false (transcribe_with_cancel ex_env true true "ing" "bom")
  = Ok (true, ex_srt_ola, [ex_seg_ola], "pt")
  /\ stages_run (Some StTranscribe) false
                (transcribe_with_cancel ex_env true true "ing" "bom")
     = [StLoadAudio; StTranscribe].
Proof.
  apply (cancel_after_transcription_returns_partial
           ex_env true true "ing" "bom"
           (mk_transcription (Some [ex_seg_ola]) (Some "pt")) ex_srt_ola);
    vm_compute; reflexivity.
Defined.

(** C3, as stated, fails.  Here the stop event is set right after alignment
    has returned -- after the transcription stage and before the translation
    stage, which both run -- and the pipeline returns the translated text
    "hello" with the flag True, not the transcribed text "ola". *)
Lemma late_cancel_returns_translated_text :
  stages_run (Some StAlign) false (transcribe_with_cancel ex_env false false "ing" "bom")
  = [StLoadAudio; StTranscribe; StAlign; StTranslate]
  /\ exec (Some StAlign) false (transcribe_with_cancel ex_env false false "ing" "bom")
     = Ok (true, "hello", [seg_set_text "hello" ex_seg_ola], "pt")
  /\ build_output_text [ex_seg_ola] false false = Ok "ola"
  /\ exec (Some StAlign) false (transcribe_with_cancel ex_env false false "ing" "bom")
     <> Ok (true, "ola", [ex_seg_ola], "pt").
Proof. repeat split; vm_compute; try reflexivity; discriminate. Qed.

Lemma format_srt_time_fields_witness :
  format_srt_time f_1_234 = Ok "00:00:01,234".
Proof.
  destruct (proj1 format_srt_time_fields f_1_234) as [H _].
  - vm_compute. reflexivity.
  - vm_compute. reflexivity.
  - vm_compute. reflexivity.
  - rewrite H. vm_compute. reflexivity.
Defined.

Lemma flat_text_witness :
  build_output_text [ex_seg_labelled; ex_seg_blank; ex_seg_ola] false true
  = Ok "A: hi ola".
Proof.
  rewrite (proj2 (proj2 (proj2 (flat_text_drops_empty_and_joins
                                  [ex_seg_labelled; ex_seg_blank; ex_seg_ola] true)))).
  - vm_compute. reflexivity.
  - right. repeat constructor.
Defined.

(** C5, as stated, fails.  The speaker label " A" begins with a space: the
    one segment is rendered " A: hi", the label followed by ": " and the
    text, and the text returned is "A: hi" -- not the joined renderings,
    whose leading space the final [strip] has removed. *)
Lemma flat_text_strips_leading_label_space :
  seg_has_speaker ex_seg_space_label = true
  /\ PyStr.join " " [default "" (seg_speaker ex_seg_space_label) ++ ": "
                     ++ seg_text_stripped ex_seg_space_label]
     = " A: hi"
  /\ build_output_text [ex_seg_space_label] false true = Ok "A: hi"
  /\ build_output_text [ex_seg_space_label] false true
     <> Ok (PyStr.join " " [default "" (seg_speaker ex_seg_space_label) ++ ": "
                            ++ seg_text_stripped ex_seg_space_label]).
Proof. repeat split; vm_compute; try reflexivity; discriminate. Qed.

Lemma failed_translation_witness :
  translate_segment ex_env_offline "pt" "en" ex_seg_ola
  = mk_segment (Some f_1_234) (Some f_3661_5) (Some "ola") None.
Proof.
  destruct (failed_translation_keeps_stripped_text ex_env_offline "pt" "en" [ex_seg_ola])
    as (_ & _ & H).
  destruct (H ex_seg_ola (PyException "network") eq_refl eq_refl) as [-> _].
  reflexivity.
Defined.

(** C6.  The code does not do what the claim and its own comment at line
    211 ("keeps the original text if the translation fails") say.  The
    translator is out of reach, and the text " ola " of the segment does not
    stay as it was: line 212 assigns the stripped [text_val], and the text
    becomes "ola".  The paths beside it do keep the text: a blank segment is
    skipped and keeps its text "  ". *)
Lemma failed_translation_strips_text :
  env_translate ex_env_offline "pt" "en" (seg_text_stripped ex_seg_ola)
  = Raise (PyException "network")
  /\ seg_text ex_seg_ola = Some " ola "
  /\ map seg_text (translate_segments ex_env_offline "pt" "en" [ex_seg_ola])
     = [Some "ola"]
  /\ seg_text (translate_segment ex_env_offline "pt" "en" ex_seg_ola)
     <> seg_text ex_seg_ola
  /\ translate_segment ex_env_offline "pt" "en" ex_seg_blank = ex_seg_blank.
Proof. repeat split; vm_compute; try reflexivity; discriminate. Qed.

(** after "job-2" has completed, the identifier of the earlier "job-1" is
    not found any more *)
Lemma export_unknown_job_witness :
  export_transcription "job-1" "txt" (srv (snd (run ex_history2 init)))
  = HttpError 404 Msg.not_found.
Proof.
  apply export_unknown_job_not_found. vm_compute. discriminate.
Defined.

Lemma srt_export_unavailable_witness :
  export_transcription "job-1" " SRT " (srv (snd (run ex_history init)))
  = HttpError 400 Msg.srt_unavailable.
Proof.
  apply (proj1 (srt_export_unavailable_without_timestamps
                  ex_history
                  (mk_transcribe_response "NARRADOR: hello" false "job-1" false "pt")
                  " SRT "
                  ltac:(vm_compute; reflexivity) eq_refl)).
  vm_compute. reflexivity.
Defined.

(** two segments, the second one blank: two numbered blocks, the second
    with an empty text (its trailing newlines are what the final [strip]
    removes) *)
Lemma subtitle_mode_witness :
  build_output_text [ex_seg_ola; ex_seg_blank] true false
  = Ok ("1" ++ PyStr.newline ++ "00:00:01,234 --> 01:01:01,500" ++ PyStr.newline
        ++ "ola" ++ PyStr.newline ++ PyStr.newline
        ++ "2" ++ PyStr.newline ++ "01:01:01,500 --> 01:01:01,500").
Proof.
  destruct (subtitle_mode_keeps_every_segment [ex_seg_ola; ex_seg_blank] false)
    as (blocks & trailing & Hlen & Hblk & Hout & _).
  - repeat constructor; eexists _, _; split; vm_compute; reflexivity.
  - destruct (Hblk 0%nat ex_seg_ola eq_refl) as (s0 & e0 & Hs0 & He0 & Hb0 & _).
    destruct (Hblk 1%nat ex_seg_blank eq_refl) as (s1 & e1 & Hs1 & He1 & _ & Hb1).
    specialize (Hb1 eq_refl eq_refl).
    assert (E0 : format_srt_time (start_of ex_seg_ola) = Ok "00:00:01,234")
      by (vm_compute; reflexivity).
    assert (E1 : format_srt_time (end_of ex_seg_ola) = Ok "01:01:01,500")
      by (vm_compute; reflexivity).
    assert (E2 : format_srt_time (start_of ex_seg_blank) = Ok "01:01:01,500")
      by (vm_compute; reflexivity).
    assert (E3 : format_srt_time (end_of ex_seg_blank) = Ok "01:01:01,500")
      by (vm_compute; reflexivity).
    rewrite E0 in Hs0. rewrite E1 in He0. rewrite E2 in Hs1. rewrite E3 in He1.
    injection Hs0 as <-. injection He0 as <-. injection Hs1 as <-. injection He1 as <-.
    destruct blocks as [|b0 [|b1 [|b2 blocks]]]; try discriminate.
    injection Hb0 as ->. injection Hb1 as ->.
    rewrite Hout. vm_compute. reflexivity.
Defined.

Lemma cancelled_answer_witness :
  exists pl,
    transcribe_alone (Some StTranscribe) ex_env ex_req_srt
    = (Http200 (mk_transcribe_response ex_srt_ola true "job-1" true "pt"), Some pl)
    /\ build_output_text [ex_seg_ola] false true = Ok (p_txt pl)
    /\ p_srt_enabled pl = true.
Proof.
  apply (cancelled_answer_is_rendered_without_labels
           ex_env ex_req_srt (mk_transcription (Some [ex_seg_ola]) (Some "pt"))
           ex_srt_ola);
    vm_compute; reflexivity.
Defined.

(** * More of the code

    Properties of the parts of [audiototext.py] that the statements above do
    not reach, and of the formatter, the pipeline and the server on inputs
    they leave out. *)

(** ** The formatter on arbitrary segment lists *)

Section Rendering.
Import PyStr.

Lemma strip_idem s : strip (strip s) = strip s.
Proof.
  unfold strip.
  rewrite (lstrip_id (rstrip (lstrip s))) by apply rstrip_head, lstrip_head.
  apply rstrip_idem.
Qed.

(** X1. Whatever the segments and the two options, a text returned by
    [build_output_text] has no whitespace at either end: stripping it again
    changes nothing. *)
Theorem build_output_text_stripped (segments : list segment)
        (with_timestamp with_speaker : bool) (out : string) :
  build_output_text segments with_timestamp with_speaker = Ok out ->
  strip out = out /\ starts_with_space out = false /\ rstrip out = out.
Proof.
  unfold build_output_text. destruct with_timestamp.
  - destruct (srt_lines with_speaker 1 segments []) as [ls|]; [|discriminate].
    simpl. intros [= <-].
    split; [apply strip_idem|]. split; [apply strip_head | apply rstrip_strip].
  - intros [= <-].
    split; [apply strip_idem|]. split; [apply strip_head | apply rstrip_strip].
Qed.

Lemma build_output_text_stripped_witness :
  build_output_text [ex_seg_ola] true false = Ok ex_srt_ola
  /\ strip ex_srt_ola = ex_srt_ola.
Proof.
  assert (H : build_output_text [ex_seg_ola] true false = Ok ex_srt_ola)
    by (vm_compute; reflexivity).
  split; [exact H|].
  exact (proj1 (build_output_text_stripped [ex_seg_ola] true false ex_srt_ola H)).
Defined.

Lemma srt_block_alike ws idx a b :
  renders_alike a b -> srt_block ws idx a = srt_block ws idx b.
Proof.
  intros (Hs & He & Ht & Hsp).
  unfold srt_block, labelled, seg_has_speaker. now rewrite He, Hs, Ht, Hsp.
Qed.

Lemma srt_lines_alike ws segs segs' :
  Forall2 renders_alike segs segs' ->
  forall idx lines, srt_lines ws idx segs lines = srt_lines ws idx segs' lines.
Proof.
  induction 1 as [|a b segs segs' Hab _ IH]; intros idx lines; [reflexivity|].
  simpl. rewrite (srt_block_alike ws idx a b Hab).
  destruct (srt_block ws idx b); simpl; [apply IH | reflexivity].
Qed.

(** the flat loop reads the text and the speaker of a segment, nothing else *)
Lemma flat_texts_alike ws segs segs' :
  Forall2 (fun a b => seg_text_stripped a = seg_text_stripped b
                      /\ seg_speaker a = seg_speaker b) segs segs' ->
  forall texts, flat_texts ws segs texts = flat_texts ws segs' texts.
Proof.
  induction 1 as [|a b segs segs' [Ht Hsp] _ IH]; intros texts; [reflexivity|].
  simpl. unfold seg_has_speaker. rewrite Ht, Hsp.
  destruct (negb (truthy (seg_text_stripped b))); [apply IH|].
  destruct (ws && _); apply IH.
Qed.

Lemma build_output_text_alike segs segs' wt ws :
  Forall2 renders_alike segs segs' ->
  build_output_text segs wt ws = build_output_text segs' wt ws.
Proof.
  intros H. unfold build_output_text. destruct wt.
  - now rewrite (srt_lines_alike ws segs segs' H).
  - rewrite (flat_texts_alike ws segs segs'); [reflexivity|].
    eapply Forall2_impl; [exact H|]. intros a b (_ & _ & Ht & Hsp). auto.
Qed.

(** X2. A key that a segment lacks is read as its default, in both modes:
    "start" as 0.0, "end" as the start, "text" as the empty text.  A list of
    segments renders exactly as the list in which every missing key is
    filled in with that default. *)
Theorem missing_keys_render_as_defaults (segments : list segment)
        (with_timestamp with_speaker : bool) :
  build_output_text (map with_defaults segments) with_timestamp with_speaker
  = build_output_text segments with_timestamp with_speaker.
Proof.
  apply build_output_text_alike.
  induction segments as [|seg segs IH]; simpl; constructor; [|exact IH].
  repeat split.
Qed.

(** X3. Flat-text formatting never reads the times of a segment and never
    fails: the list without its times gives the same text, and there is
    always a text -- also for segments whose times cannot be formatted. *)
Theorem flat_text_ignores_times (segments : list segment) (with_speaker : bool) :
  build_output_text (map without_times segments) false with_speaker
  = build_output_text segments false with_speaker
  /\ exists out, build_output_text segments false with_speaker = Ok out.
Proof.
  split; [|unfold build_output_text; eauto].
  unfold build_output_text. rewrite (flat_texts_alike with_speaker _ segments);
    [reflexivity|].
  induction segments as [|seg segs IH]; simpl; constructor; [|exact IH].
  split; reflexivity.
Qed.

Lemma labelled_no_speaker ws seg t :
  seg_has_speaker seg = false -> labelled ws seg t = t.
Proof. unfold labelled. intros ->. now rewrite andb_false_r. Qed.

(** X4. When no segment carries a speaker value -- the key is absent or its
    value is empty -- the label option changes nothing, in either mode. *)
Theorem label_option_needs_speakers (segments : list segment) (with_timestamp : bool) :
  Forall (fun seg => seg_has_speaker seg = false) segments ->
  build_output_text segments with_timestamp true
  = build_output_text segments with_timestamp false.
Proof.
  intros Hall. unfold build_output_text. destruct with_timestamp.
  - assert (H : forall idx lines,
               srt_lines true idx segments lines = srt_lines false idx segments lines);
      [|now rewrite H].
    induction Hall as [|seg segs Hseg _ IH]; intros idx lines; [reflexivity|].
    cbn [srt_lines].
    assert (Hb : srt_block true idx seg = srt_block false idx seg).
    { unfold srt_block. now rewrite !(labelled_no_speaker _ seg _ Hseg). }
    rewrite Hb. destruct (srt_block false idx seg); simpl; [apply IH | reflexivity].
  - rewrite !flat_texts_spec. simpl app. do 3 f_equal.
    induction Hall as [|seg segs Hseg _ IH]; [reflexivity|].
    simpl. destruct (truthy (seg_text_stripped seg)); [|exact IH].
    simpl. rewrite IH, !(labelled_no_speaker _ seg _ Hseg). reflexivity.
Qed.

Lemma label_option_needs_speakers_witness :
  build_output_text [ex_seg_ola; ex_seg_blank] true true
  = build_output_text [ex_seg_ola; ex_seg_blank] true false.
Proof.
  apply label_option_needs_speakers. repeat constructor.
Defined.

Lemma all_space_app a b : all_space (a ++ b) = all_space a && all_space b.
Proof.
  induction a as [|c a IH]; [reflexivity|].
  change (String c a ++ b) with (String c (a ++ b)). simpl.
  now rewrite IH, andb_assoc.
Qed.

Lemma all_space_lstrip s : all_space (lstrip s) = all_space s.
Proof.
  induction s as [|c s IH]; [reflexivity|]. simpl.
  destruct (is_space c) eqn:Hc; [exact IH|]. simpl. now rewrite Hc.
Qed.

Lemma strip_empty_all_space s : strip s = "" -> all_space s = true.
Proof.
  unfold strip. intros H. destruct (rstrip_suffix (lstrip s)) as (w & Hw & Hsp).
  rewrite H in Hw. simpl in Hw. rewrite <- all_space_lstrip, Hw. exact Hsp.
Qed.

Lemma tight_not_all_space t :
  t <> "" -> starts_with_space t = false -> all_space t = false.
Proof. destruct t as [|c t]; [contradiction|]. simpl. now intros _ ->. Qed.

Lemma labelled_not_all_space ws seg :
  truthy (seg_text_stripped seg) = true ->
  all_space (labelled ws seg (seg_text_stripped seg)) = false.
Proof.
  unfold seg_text_stripped. set (t := strip _). intros Ht.
  assert (Hns : all_space t = false).
  { apply tight_not_all_space; [now apply truthy_nonempty | apply strip_head]. }
  unfold labelled. destruct (ws && seg_has_speaker seg); [|exact Hns].
  rewrite all_space_app.
  change (": " ++ t) with (String ":" (String " " t)).
  cbn [all_space]. rewrite Hns. now rewrite !andb_false_r.
Qed.

(** X5. The flat text is empty exactly when every segment is blank once
    stripped: a speaker label alone never produces text, and a single
    segment with text always does. *)
Theorem flat_text_empty_iff_all_blank (segments : list segment) (with_speaker : bool) :
  build_output_text segments false with_speaker = Ok ""
  <-> Forall (fun seg => seg_text_stripped seg = "") segments.
Proof.
  unfold build_output_text. rewrite flat_texts_spec. simpl app. split.
  - intros [= H]. apply strip_empty_all_space in H.
    induction segments as [|seg segs IH]; [constructor|].
    simpl in H. destruct (truthy (seg_text_stripped seg)) eqn:Ht.
    + exfalso. simpl map in H. rewrite join_cons in H.
      pose proof (labelled_not_all_space with_speaker seg Ht) as Hl.
      destruct (map _ _); [congruence|].
      rewrite all_space_app, Hl in H. discriminate.
    + constructor; [|now apply IH].
      destruct (seg_text_stripped seg); [reflexivity|discriminate].
  - intros Hall. do 2 f_equal.
    replace (List.filter (fun seg => truthy (seg_text_stripped seg)) segments)
      with (@nil segment); [reflexivity|].
    induction Hall as [|seg segs Hseg _ IH]; [reflexivity|].
    simpl. now rewrite Hseg.
Qed.

End Rendering.

(** ** The pipeline under cancellation and failures *)

(** X6. A stop that arrives once the pipeline is past its second check --
    right after alignment, diarization or translation has returned --
    changes one thing only: the flag of the result is True.  The same stages
    run, and the text, the segments and the language are those of the
    undisturbed run; a run that raises raises the same exception. *)
Theorem late_cancel_only_sets_flag (e : env) (with_timestamp with_speaker : bool)
        (target_language precision : string) (st : stage) :
  let p := transcribe_with_cancel e with_timestamp with_speaker
                                  target_language precision in
  In st [StAlign; StDiarize; StTranslate] ->
  stages_run (Some st) false p = stages_run None false p
  /\ exec (Some st) false p
     = match exec None false p with
       | Ok (_, text, segments, language) =>
           Ok (existsb (stage_eqb st) (stages_run None false p),
               text, segments, language)
       | Raise err => Raise err
       end.
Proof.
  intros p Hst. subst p.
  destruct Hst as [<-|[<-|[<-|[]]]]; pipeline_run; auto.
Qed.

Lemma late_cancel_only_sets_flag_witness :
  exec (Some StTranslate) false (transcribe_with_cancel ex_env false true "ing" "bom")
  = Ok (true, "NARRADOR: hello",
        [mk_segment (Some f_1_234) (Some f_3661_5) (Some "hello") (Some "NARRADOR")],
        "pt").
Proof.
  rewrite (proj2 (late_cancel_only_sets_flag ex_env false true "ing" "bom" StTranslate
                    ltac:(simpl; auto))).
  vm_compute. reflexivity.
Defined.

(** X7. With timestamps off, a job can fail at two places only: loading
    the audio and the transcription itself.  Whatever alignment,
    diarization and translation do, and whenever a stop arrives, the
    pipeline raises exactly when [load_audio] raises, or when the
    transcription is reached and raises. *)
Theorem flat_job_fails_only_before_segments (e : env) (with_speaker : bool)
        (target_language precision : string) (signal : option stage) (err : exn) :
  let cfg := default quality_bom (QUALITY_CONFIG !! precision) in
  exec signal false
       (transcribe_with_cancel e false with_speaker target_language precision)
  = Raise err
  <-> env_load_audio e = Raise err
      \/ (env_load_audio e = Ok tt /\ signal <> Some StLoadAudio
          /\ env_transcribe e (q_model cfg) (q_batch_size cfg) = Raise err).
Proof.
  intros cfg. unfold build_output_text, transcribe_with_cancel, call, is_set.
  fold cfg.
  destruct (env_load_audio e) as [[]|err0];
    [|simpl; split; [intros [= ->]; auto | intros [[= ->]|(H & _)]; [reflexivity|discriminate]]].
  destruct (env_transcribe e (q_model cfg) (q_batch_size cfg)) as [tr|err1].
  - split; [|intros [H|(_ & _ & H)]; discriminate].
    destruct signal as [[]|]; repeat pipeline_step;
      cbn [exec stages_run pbind lift signal_hits stage_eqb orb]; discriminate.
  - destruct signal as [[]|]; simpl;
      (split; [intros [= ->] || intros [=]
              | intros [H|(_ & Hs & H)]; [discriminate| try congruence]]);
      auto 6 using eq_refl; try (right; repeat split; congruence).
Qed.

(** X8. When the target language is the language detected -- in
    particular when the form's language is unknown, which means "pt", and
    the audio is Portuguese -- the translator is never called: the
    translation stage does not run, and the result is the same whatever the
    translator would have answered. *)
Theorem same_language_skips_translation (e : env)
        (f : string -> string -> string -> result string)
        (with_timestamp with_speaker : bool) (target_language precision : string)
        (signal : option stage) (tr : transcription) :
  let cfg := default quality_bom (QUALITY_CONFIG !! precision) in
  env_transcribe e (q_model cfg) (q_batch_size cfg) = Ok tr ->
  default "pt" (LANG_MAP !! target_language) = language_or_pt (tr_language tr) ->
  ~ In StTranslate
       (stages_run signal false
          (transcribe_with_cancel e with_timestamp with_speaker
                                  target_language precision))
  /\ exec signal false
          (transcribe_with_cancel (with_translate f e) with_timestamp with_speaker
                                  target_language precision)
     = exec signal false
            (transcribe_with_cancel e with_timestamp with_speaker
                                    target_language precision).
Proof.
  intros cfg Htr Hlang.
  unfold transcribe_with_cancel, call, is_set, align_step, diarize_step, with_translate.
  cbn [env_load_audio env_transcribe env_align env_diarize].
  fold cfg. rewrite Htr.
  destruct (env_load_audio e) as [[]|err0];
    [|simpl; split; [intros [H|[]]; discriminate | reflexivity]].
  destruct signal as [[]|]; repeat pipeline_step;
    cbn [exec stages_run pbind lift signal_hits stage_eqb orb];
    try (exfalso;
         match goal with
         | H : negb (String.eqb _ _) && _ = true |- _ =>
             rewrite Hlang, String.eqb_refl in H; discriminate H
         end);
    (split; [simpl; intuition discriminate | reflexivity]).
Qed.

Lemma same_language_skips_translation_witness :
  exec None false
       (transcribe_with_cancel
          (with_translate (fun _ _ _ => Raise (PyException "network")) ex_env)
          false false "xx" "bom")
  = Ok (false, "ola", [ex_seg_ola], "pt").
Proof.
  rewrite (proj2 (same_language_skips_translation
                    ex_env (fun _ _ _ => Raise (PyException "network"))
                    false false "xx" "bom" None
                    (mk_transcription (Some [ex_seg_ola]) (Some "pt"))
                    eq_refl ltac:(vm_compute; reflexivity))).
  vm_compute. reflexivity.
Defined.

Lemma narrator_fallback_map segs :
  narrator_fallback segs = map (seg_setdefault_speaker "NARRADOR") segs.
Proof. induction segs as [|seg segs IH]; simpl; [reflexivity|now rewrite IH]. Qed.

(** X9. When diarization raises, the segments are kept and every one of
    them ends up with a speaker key: a segment that had one keeps it, the
    others get "NARRADOR"; times and texts are untouched.  Doing it twice
    changes nothing more. *)
Theorem failed_diarization_labels_every_segment (e : env) (segments : list segment)
        (err : exn) :
  env_diarize e segments = Raise err ->
  diarize_step e segments = narrator_fallback segments
  /\ length (diarize_step e segments) = length segments
  /\ (forall (i : nat) seg,
        segments !! i = Some seg ->
        diarize_step e segments !! i
        = Some (mk_segment (seg_start seg) (seg_end seg) (seg_text seg)
                           (Some (default "NARRADOR" (seg_speaker seg)))))
  /\ narrator_fallback (narrator_fallback segments) = narrator_fallback segments.
Proof.
  intros Hfail. unfold diarize_step. rewrite Hfail.
  rewrite !narrator_fallback_map. split; [reflexivity|].
  split; [apply length_map|]. split.
  - intros i seg Hi. rewrite list_lookup_fmap, Hi. simpl.
    unfold seg_setdefault_speaker. destruct seg as [s t x [sp|]]; reflexivity.
  - rewrite narrator_fallback_map, List.map_map. apply List.map_ext. intros seg.
    unfold seg_setdefault_speaker. destruct (seg_speaker seg) eqn:Hsp; simpl.
    + now rewrite Hsp.
    + reflexivity.
Qed.

Lemma failed_diarization_witness :
  diarize_step ex_env [ex_seg_ola; ex_seg_labelled]
  = [mk_segment (Some f_1_234) (Some f_3661_5) (Some " ola ") (Some "NARRADOR");
     ex_seg_labelled].
Proof.
  rewrite (proj1 (failed_diarization_labels_every_segment
                    ex_env [ex_seg_ola; ex_seg_labelled] (PyException "HF_TOKEN")
                    eq_refl)).
  reflexivity.
Defined.

Lemma q_align_precision (precision : string) :
  q_align (default quality_bom (QUALITY_CONFIG !! precision))
  = negb (String.eqb precision "rapido").
Proof.
  unfold QUALITY_CONFIG. cbn [list_to_map foldr fst snd].
  destruct (String.eqb_spec precision "rapido") as [->|Hr].
  - now rewrite lookup_insert_eq.
  - rewrite lookup_insert_ne by congruence.
    destruct (String.eqb_spec precision "bom") as [->|Hb].
    + now rewrite lookup_insert_eq.
    + rewrite lookup_insert_ne by congruence.
      destruct (String.eqb_spec precision "perfeito") as [->|Hp].
      * now rewrite lookup_insert_eq.
      * rewrite lookup_insert_ne by congruence. now rewrite lookup_empty.
Qed.

(** X10. In an undisturbed run the alignment stage runs exactly when the
    audio was loaded, the transcription returned at least one segment, and
    the precision is not "rapido": every other precision, known or not,
    aligns. *)
Theorem alignment_runs_unless_rapido (e : env) (with_timestamp with_speaker : bool)
        (target_language precision : string) :
  let cfg := default quality_bom (QUALITY_CONFIG !! precision) in
  In StAlign
     (stages_run None false
        (transcribe_with_cancel e with_timestamp with_speaker
                                target_language precision))
  <-> exists tr,
        env_load_audio e = Ok tt
        /\ env_transcribe e (q_model cfg) (q_batch_size cfg) = Ok tr
        /\ default [] (tr_segments tr) <> []
        /\ precision <> "rapido".
Proof.
  intros cfg. unfold transcribe_with_cancel, call, is_set. fold cfg.
  pose proof (q_align_precision precision) as Hq. fold cfg in Hq. rewrite Hq.
  destruct (env_load_audio e) as [[]|err0];
    [|simpl; split; [intuition discriminate | intros (tr & H & _); discriminate]].
  destruct (env_transcribe e (q_model cfg) (q_batch_size cfg)) as [tr|err1];
    [|simpl; split; [intuition discriminate | intros (tr & _ & H & _); discriminate]].
  cbn [exec stages_run pbind lift signal_hits orb].
  destruct (String.eqb_spec precision "rapido") as [Hr|Hr]; cbn [negb].
  - rewrite andb_false_r. split.
    + repeat pipeline_step;
        cbn [exec stages_run pbind lift signal_hits orb]; simpl;
        intuition discriminate.
    + intros (tr' & _ & _ & _ & H). contradiction.
  - rewrite andb_true_r. destruct (default [] (tr_segments tr)) as [|seg segs] eqn:Hs.
    + split.
      * repeat pipeline_step;
          cbn [exec stages_run pbind lift signal_hits orb]; simpl;
          intuition discriminate.
      * intros (tr' & _ & [= <-] & H & _). congruence.
    + split; [|intros _; simpl; auto].
      intros _. exists tr. rewrite Hs. repeat split; [discriminate|assumption].
Qed.

(** X11. Whatever the collaborators do and whenever a stop arrives, a job
    goes through its stages in one fixed order and through each at most
    once: the stages that run are picked, in order, from save, convert,
    load, transcribe, align, diarize, translate.  Diarization never runs
    for a request without speaker labels. *)
Theorem stages_run_in_order (e : env) (req : request) (signal : option stage) :
  sublist (stages_run signal false (transcribe_body e req))
          [StSave; StConvert; StLoadAudio; StTranscribe; StAlign; StDiarize;
           StTranslate]
  /\ (diferenciar_narrador req = false ->
      ~ In StDiarize (stages_run signal false (transcribe_body e req))).
Proof.
  destruct (diferenciar_narrador req) eqn:Hws;
    (split;
     [ destruct signal as [[]|]; pipeline_run;
       repeat first [apply sublist_nil | apply sublist_skip | apply sublist_cons]
     | try discriminate ]).
  intros _. unfold transcribe_body, transcribe_with_cancel.
  rewrite Hws. cbn [andb].
  destruct signal as [[]|]; pipeline_run; simpl; intuition discriminate.
Qed.

(** X12. A stop that arrives before the transcription starts -- while the
    upload is saved, converted or loaded -- is answered 200 with the empty
    text, the aborted mark and the language "pt"; the transcription never
    runs.  The job still gets an identifier and replaces the stored record
    with an empty one, so that its subtitle export is refused even when
    timestamps were on, and its plain export is the empty file. *)
Theorem early_cancel_answers_empty (e : env) (req : request) (st : stage) :
  In st [StSave; StConvert; StLoadAudio] ->
  env_save_upload e = Ok tt ->
  env_convert_to_wav e = Ok tt ->
  env_load_audio e = Ok tt ->
  let pl := mk_payload (env_uuid4 e) ""
                       (if timestamp req then Some "" else None) (timestamp req) in
  stages_run (Some st) false (transcribe_body e req)
  = [StSave; StConvert; StLoadAudio]
  /\ transcribe_alone (Some st) e req
     = (Http200 (mk_transcribe_response "" true (env_uuid4 e) (timestamp req) "pt"),
        Some pl)
  /\ forall s formato,
       last_export_payload s = Some pl ->
       (PyStr.strip (PyStr.lower formato) = "srt" ->
        export_transcription (env_uuid4 e) formato s
        = HttpError 400 Msg.srt_unavailable)
       /\ (PyStr.strip (PyStr.lower formato) = "txt" ->
           export_transcription (env_uuid4 e) formato s
           = Http200 (mk_export_response
                        "" "text/plain; charset=utf-8"
                        ("attachment; filename=" ++ PyStr.chr 34 ++ "transcricao_"
                         ++ env_uuid4 e ++ ".txt" ++ PyStr.chr 34))).
Proof.
  intros Hst Hsave Hconv Hload pl.
  assert (Hrun : stages_run (Some st) false (transcribe_body e req)
                 = [StSave; StConvert; StLoadAudio]
                 /\ exec (Some st) false (transcribe_body e req)
                    = Ok (true, "", [], "pt")).
  { unfold transcribe_body, transcribe_with_cancel, call, is_set.
    rewrite Hsave, Hconv, Hload.
    destruct Hst as [<-|[<-|[<-|[]]]]; split; reflexivity. }
  destruct Hrun as [Hstages Hexec]. split; [exact Hstages|]. split.
  - unfold transcribe_alone. rewrite Hexec. unfold conclude, transcribe_tail.
    subst pl. destruct (timestamp req); reflexivity.
  - intros s formato Hs. unfold export_transcription. rewrite Hs.
    subst pl. cbn [p_job_id p_srt p_txt p_srt_enabled].
    rewrite String.eqb_refl. cbn [negb].
    split; intros ->; cbn.
    + destruct (timestamp req); reflexivity.
    + reflexivity.
Qed.

Lemma early_cancel_answers_empty_witness :
  transcribe_alone (Some StConvert) ex_env ex_req_srt
  = (Http200 (mk_transcribe_response "" true "job-1" true "pt"),
     Some (mk_payload "job-1" "" (Some "") true)).
Proof.
  exact (proj1 (proj2 (early_cancel_answers_empty
                         ex_env ex_req_srt StConvert
                         ltac:(simpl; auto) eq_refl eq_refl eq_refl))).
Defined.

(** ** The server between requests *)

(** X13. At any moment at most one transcription is in flight.  The job
    slot is held exactly while there is one, and exactly then the global
    stop event is set to something: the event of that very job, which
    exists. *)
Theorem at_most_one_job_in_flight (c : config) :
  reachable c ->
  (length (frames c) <= 1)%nat
  /\ (current_task_lock (srv c) = true <-> frames c <> [])
  /\ (current_stop_event (srv c) = None <-> frames c = [])
  /\ forall fr, In fr (frames c) ->
       current_stop_event (srv c) = Some (fr_stop_event fr)
       /\ (fr_stop_event fr < length (events (srv c)))%nat.
Proof.
  intros Hr. apply reachable_gate_inv in Hr. unfold gate_inv in Hr.
  destruct (current_task_lock (srv c)).
  - destruct Hr as (fr & -> & -> & Hlt).
    split; [simpl; lia|]. split; [split; [discriminate|reflexivity]|].
    split; [split; discriminate|].
    intros fr' [<-|[]]. split; [reflexivity|assumption].
  - destruct Hr as [-> ->].
    split; [simpl; lia|]. split; [split; [discriminate|congruence]|].
    split; [split; reflexivity|].
    intros fr' [].
Qed.

Lemma at_most_one_job_in_flight_witness :
  (length (frames ex_busy) <= 1)%nat
  /\ (current_task_lock (srv ex_busy) = true <-> frames ex_busy <> []).
Proof.
  destruct (at_most_one_job_in_flight ex_busy) as (H1 & H2 & _).
  - apply reachable_step, reachable_init.
  - split; assumption.
Defined.

(** X14. [/stop] answers "stopping" exactly when a job is in flight, and
    then sets the stop event of that job and nothing else: every other
    event, the slot, the stored record and the job itself are as before,
    and a second [/stop] changes nothing more.  With no job in flight it
    answers "no_active_task" and leaves the server as it was. *)
Theorem stop_reaches_only_the_job_in_flight (c : config) :
  reachable c ->
  match frames c with
  | [] => stop_processing c = (no_active_task, c)
  | fr :: _ =>
      let c' := snd (stop_processing c) in
      fst (stop_processing c) = stopping
      /\ events (srv c') !! fr_stop_event fr = Some true
      /\ (forall i, i <> fr_stop_event fr ->
            events (srv c') !! i = events (srv c) !! i)
      /\ frames c' = frames c
      /\ current_task_lock (srv c') = current_task_lock (srv c)
      /\ current_stop_event (srv c') = current_stop_event (srv c)
      /\ last_export_payload (srv c') = last_export_payload (srv c)
      /\ stop_processing c' = (stopping, c')
  end.
Proof.
  intros Hr. apply reachable_gate_inv in Hr. unfold gate_inv in Hr.
  unfold stop_processing.
  destruct (current_task_lock (srv c)).
  - destruct Hr as (fr & -> & -> & Hlt). cbn.
    split; [reflexivity|]. split; [now apply list_lookup_insert_eq|].
    split; [intros i Hi; now apply list_lookup_insert_ne|].
    repeat split. now rewrite list_insert_insert_eq.
  - destruct Hr as [-> ->]. reflexivity.
Qed.

Lemma stop_reaches_only_the_job_in_flight_witness :
  fst (stop_processing ex_busy) = stopping
  /\ events (srv (snd (stop_processing ex_busy))) = [true].
Proof.
  pose proof (stop_reaches_only_the_job_in_flight
                ex_busy (reachable_step _ _ reachable_init)) as H.
  cbn in H. destruct H as (H1 & _). split; [exact H1 | reflexivity].
Defined.

Lemma run_stops_idle (n : nat) (c : config) :
  current_stop_event (srv c) = None ->
  run (repeat EvStop n) c = (repeat (OutStop no_active_task) n, c).
Proof.
  intros Hc. induction n as [|n IH]; [reflexivity|].
  cbn [repeat run step]. unfold stop_processing. rewrite Hc, IH. reflexivity.
Qed.

Lemma run_app (evs1 evs2 : list event) : forall c,
  run (evs1 ++ evs2) c
  = (fst (run evs1 c) ++ fst (run evs2 (snd (run evs1 c))),
     snd (run evs2 (snd (run evs1 c))))%list.
Proof.
  induction evs1 as [|ev evs1 IH]; intros c.
  - simpl. now destruct (run evs2 c).
  - cbn [app run]. destruct (step ev c) as [o c1]. rewrite IH.
    destruct (run evs1 c1) as [os c2]. simpl. reflexivity.
Qed.

(** X15. Stop requests that arrive while no job is in flight are
    forgotten: each is answered "no_active_task", and the job submitted
    after them runs to its end as if they had never been sent. *)
Theorem stop_before_admission_is_forgotten (c : config) (req : request) (e : env)
        (n : nat) :
  reachable c ->
  current_task_lock (srv c) = false ->
  let job := EvTranscribe req e :: schedule None false (transcribe_body e req) in
  fst (run (repeat EvStop n) c) = repeat (OutStop no_active_task) n
  /\ last (fst (run (repeat EvStop n ++ job) c))
     = Some (OutTranscribe (Some (fst (transcribe_alone None e req))))
  /\ last_export_payload (srv (snd (run (repeat EvStop n ++ job) c)))
     = last_export_payload (srv (snd (run job c))).
Proof.
  intros Hr Hfree job.
  assert (Hnone : current_stop_event (srv c) = None).
  { apply reachable_gate_inv in Hr. unfold gate_inv in Hr.
    rewrite Hfree in Hr. tauto. }
  rewrite run_app, (run_stops_idle n c Hnone). cbn [fst snd].
  split; [reflexivity|]. split; [|reflexivity].
  destruct (run_alone None c req e Hr Hfree) as (Hlast & _).
  fold job in Hlast. rewrite last_app, Hlast. reflexivity.
Qed.

Lemma stop_before_admission_witness :
  last (fst (run (repeat EvStop 2
                  ++ EvTranscribe ex_req ex_env
                     :: schedule None false (transcribe_body ex_env ex_req)) init))
  = Some (OutTranscribe (Some (fst (transcribe_alone None ex_env ex_req)))).
Proof.
  exact (proj1 (proj2 (stop_before_admission_is_forgotten
                         init ex_req ex_env 2 reachable_init eq_refl))).
Defined.

(** X16. The stored record changes in one kind of step only: the end of a
    job that is answered 200, which stores the record of that job.  A
    refused submission, a failed job, a stop, an export and every
    intermediate step of a job leave the record of the previous job in
    place. *)
Theorem record_changes_only_on_success (ev : event) (c : config) :
  match completed (fst (step ev c)) with
  | Some b =>
      exists pl,
        last_export_payload (srv (snd (step ev c))) = Some pl
        /\ p_job_id pl = resp_job_id b
        /\ p_srt_enabled pl = resp_timestamp_enabled b
  | None =>
      last_export_payload (srv (snd (step ev c))) = last_export_payload (srv c)
  end.
Proof.
  destruct ev as [req e|i| |job_id formato]; simpl.
  - unfold transcribe_enter, try_acquire.
    destruct (current_task_lock (srv c)); reflexivity.
  - unfold transcribe_advance.
    destruct (frames c !! i) as [fr|]; simpl; [|reflexivity].
    destruct (fr_prog fr) as [r|err|st k|k]; simpl; try reflexivity.
    + destruct (transcribe_tail (fr_env fr) (fr_req fr) r) as [[pl body]|err] eqn:Ht;
        simpl.
      * exists pl. split; [reflexivity|]. apply (tail_records _ _ _ _ _ Ht).
      * destruct err; reflexivity.
    + destruct err; reflexivity.
  - unfold stop_processing. destruct (current_stop_event (srv c)); reflexivity.
  - reflexivity.
Qed.

(** *** What the export returns *)

Lemma body_faithful (e : env) (req : request) :
  all_results (faithful req) (transcribe_body e req).
Proof.
  unfold transcribe_body, transcribe_with_cancel, call, is_set.
  repeat (cbn [all_results pbind lift faithful];
          match goal with
          | |- context [pbind (if ?b then _ else _) _] => destruct b eqn:?
          | |- context [pbind (lift ?r) _] => destruct r eqn:?
          | |- context [lift ?r] => destruct r eqn:?
          end);
    cbn [all_results pbind lift faithful]; repeat split; auto; discriminate.
Qed.

Lemma tail_exports e req r pl body :
  faithful req r ->
  transcribe_tail e req r = Ok (pl, body) ->
  exports (Some pl) (Some body).
Proof.
  unfold faithful, transcribe_tail, rbind, exports.
  destruct r as [[[aborted text] segments] lang]. intros Hf.
  destruct (build_output_text segments false (diferenciar_narrador req)) as [txt|] eqn:Htxt;
    [|discriminate].
  destruct (timestamp req) eqn:Hts.
  - destruct (build_output_text segments true (diferenciar_narrador req)) as [srt|] eqn:Hsrt;
      [|discriminate].
    intros [= <- <-]. cbn. repeat split. intros Hab. specialize (Hf Hab). congruence.
  - intros [= <- <-]. cbn. repeat split. intros Hab. specialize (Hf Hab). congruence.
Qed.

Lemma step_faithful ev c : frames_faithful c -> frames_faithful (snd (step ev c)).
Proof.
  unfold frames_faithful. intros H.
  destruct ev as [req e|i| |job_id formato]; simpl.
  - unfold transcribe_enter, try_acquire.
    destruct (current_task_lock (srv c)); simpl; [assumption|].
    apply Forall_app. split; [assumption|]. constructor; [|constructor].
    apply body_faithful.
  - unfold transcribe_advance.
    destruct (frames c !! i) as [fr|] eqn:Hi; simpl; [|assumption].
    pose proof (Forall_lookup_1 _ _ _ _ H Hi) as Hfr. simpl in Hfr.
    destruct (fr_prog fr) as [r|err|st k|k] eqn:Hp; simpl.
    + destruct (transcribe_tail (fr_env fr) (fr_req fr) r) as [[pl body]|err];
        simpl; now apply Forall_delete.
    + now apply Forall_delete.
    + apply Forall_insert; assumption.
    + apply Forall_insert; [assumption|]. simpl.
      destruct Hfr. destruct (default false _); assumption.
  - unfold stop_processing. destruct (current_stop_event (srv c)); assumption.
  - assumption.
Qed.

Lemma step_exports ev c b0 :
  frames_faithful c ->
  exports (last_export_payload (srv c)) b0 ->
  exports (last_export_payload (srv (snd (step ev c))))
          (latest (completed (fst (step ev c))) b0).
Proof.
  unfold frames_faithful. intros Hf H.
  destruct ev as [req e|i| |job_id formato]; simpl.
  - unfold transcribe_enter, try_acquire.
    destruct (current_task_lock (srv c)); simpl; assumption.
  - unfold transcribe_advance.
    destruct (frames c !! i) as [fr|] eqn:Hi; simpl; [|assumption].
    pose proof (Forall_lookup_1 _ _ _ _ Hf Hi) as Hfr. simpl in Hfr.
    destruct (fr_prog fr) as [r|err|st k|k]; simpl; try assumption.
    + destruct (transcribe_tail (fr_env fr) (fr_req fr) r) as [[pl body]|err] eqn:Ht;
        simpl.
      * apply (tail_exports _ _ _ _ _ Hfr Ht).
      * destruct err; assumption.
    + destruct err; assumption.
  - unfold stop_processing. destruct (current_stop_event (srv c)); assumption.
  - assumption.
Qed.

Lemma run_exports (evs : list event) : forall c b0,
  frames_faithful c ->
  exports (last_export_payload (srv c)) b0 ->
  exports (last_export_payload (srv (snd (run evs c))))
          (latest (last_completed (fst (run evs c))) b0).
Proof.
  induction evs as [|ev evs IH]; intros c b0 Hf H; simpl; [assumption|].
  pose proof (step_exports ev c b0 Hf H) as Hs.
  pose proof (step_faithful ev c Hf) as Hf'.
  destruct (step ev c) as [o c1]. simpl in Hs, Hf'.
  specialize (IH c1 _ Hf' Hs).
  destruct (run evs c1) as [os c2]. simpl in *.
  destruct (last_completed os); assumption.
Qed.

(** X17. After any history of requests, the job that completed last, if its
    answer is not marked aborted, exports what it answered: with timestamps
    off, the plain export is the text of the answer; with timestamps on,
    the subtitle export is the text of the answer -- unless that text is
    empty, in which case the subtitle export is refused with 400 although
    timestamps were on. *)
Theorem export_returns_answered_text (evs : list event) (b : transcribe_response)
        (formato : string) :
  last_completed (fst (run evs init)) = Some b ->
  resp_aborted b = false ->
  let st := srv (snd (run evs init)) in
  (resp_timestamp_enabled b = false ->
   PyStr.strip (PyStr.lower formato) = "txt" ->
   export_transcription (resp_job_id b) formato st
   = Http200 (mk_export_response
                (resp_text b) "text/plain; charset=utf-8"
                ("attachment; filename=" ++ PyStr.chr 34 ++ "transcricao_"
                 ++ resp_job_id b ++ ".txt" ++ PyStr.chr 34)))
  /\ (resp_timestamp_enabled b = true ->
      PyStr.strip (PyStr.lower formato) = "srt" ->
      export_transcription (resp_job_id b) formato st
      = if PyStr.truthy (resp_text b)
        then Http200 (mk_export_response
                        (resp_text b) "application/x-subrip"
                        ("attachment; filename=" ++ PyStr.chr 34 ++ "transcricao_"
                         ++ resp_job_id b ++ ".srt" ++ PyStr.chr 34))
        else HttpError 400 Msg.srt_unavailable).
Proof.
  intros Hlast Hab st. subst st.
  pose proof (run_exports evs init None (Forall_nil_2 _) I) as H.
  destruct (run evs init) as [outs c]. simpl in *.
  rewrite Hlast in H. simpl in H.
  unfold export_transcription.
  destruct (last_export_payload (srv c)) as [pl|]; [|contradiction].
  destruct H as (Hid & Hen & Htext). specialize (Htext Hab).
  rewrite Hid, String.eqb_refl. cbn [negb].
  split; intros Hts ->; rewrite Hts in *; cbn.
  - now rewrite Htext.
  - rewrite Hen, Htext. cbn. destruct (PyStr.truthy (resp_text b)); reflexivity.
Qed.

Lemma export_returns_answered_text_witness :
  export_transcription "job-1" "TXT" (srv (snd (run ex_history init)))
  = Http200 (mk_export_response
               "NARRADOR: hello" "text/plain; charset=utf-8"
               ("attachment; filename=" ++ PyStr.chr 34 ++ "transcricao_job-1.txt"
                ++ PyStr.chr 34)).
Proof.
  exact (proj1 (export_returns_answered_text
                  ex_history
                  (mk_transcribe_response "NARRADOR: hello" false "job-1" false "pt")
                  "TXT" ltac:(vm_compute; reflexivity) eq_refl)
               eq_refl ltac:(vm_compute; reflexivity)).
Defined.

(** *** The format of an export *)

Section FormatName.
Import PyStr.

Lemma is_space_lower_char c : is_space (lower_char c) = is_space c.
Proof. destruct c as [[] [] [] [] [] [] [] []]; reflexivity. Qed.

Lemma lower_char_idem c : lower_char (lower_char c) = lower_char c.
Proof. destruct c as [[] [] [] [] [] [] [] []]; reflexivity. Qed.

Lemma lower_idem s : lower (lower s) = lower s.
Proof.
  induction s as [|c s IH]; simpl; [reflexivity|].
  now rewrite lower_char_idem, IH.
Qed.

Lemma lower_lstrip s : lower (lstrip s) = lstrip (lower s).
Proof.
  induction s as [|c s IH]; simpl; [reflexivity|].
  rewrite is_space_lower_char. destruct (is_space c); [exact IH|reflexivity].
Qed.

Lemma lower_rstrip s : lower (rstrip s) = rstrip (lower s).
Proof.
  induction s as [|c s IH]; simpl; [reflexivity|].
  rewrite <- IH, is_space_lower_char.
  destruct (rstrip s); simpl; [destruct (is_space c)|]; reflexivity.
Qed.

Lemma lower_strip s : lower (strip s) = strip (lower s).
Proof. unfold strip. now rewrite lower_rstrip, lower_lstrip. Qed.

(** X18. The format of an export is read without regard to case and to
    surrounding whitespace: normalising the name first -- lower case, then
    strip -- never changes the answer, so that " SRT " is "srt". *)
Theorem export_format_is_normalised (job_id formato : string) (st : state) :
  export_transcription job_id (strip (lower formato)) st
  = export_transcription job_id formato st.
Proof.
  unfold export_transcription.
  now rewrite lower_strip, lower_idem, strip_idem.
Qed.

End FormatName.

(** ** The runtime caches *)

Section RuntimeCaches.
Context {M A P : Type}.
Implicit Types rt : Runtime.runtime M A P.

(** X19. [get_model] loads a model at most once per name.  A name that is
    cached is answered from the cache, the loader not being consulted; a
    name that is not is loaded, and a successful load is cached, so that
    every later call for that name returns the same model without loading.
    A failed load raises the loader's exception and caches nothing.  The
    models of the other names and the other two caches are never touched,
    and the lookup that ends the function never fails. *)
Theorem get_model_loads_once (load_model : string -> result M)
        (model_name : string) rt :
  let '(r, rt') := Runtime.get_model load_model model_name rt in
  Runtime.align_models rt' = Runtime.align_models rt
  /\ Runtime.diarize_pipeline rt' = Runtime.diarize_pipeline rt
  /\ (forall k, k <> model_name ->
        Runtime.models rt' !! k = Runtime.models rt !! k)
  /\ match r with
     | Ok m =>
         Runtime.models rt' !! model_name = Some m
         /\ match Runtime.models rt !! model_name with
            | Some m0 => m = m0 /\ rt' = rt
            | None => load_model model_name = Ok m
            end
         /\ forall load', Runtime.get_model load' model_name rt' = (Ok m, rt')
     | Raise err =>
         rt' = rt
         /\ Runtime.models rt !! model_name = None
         /\ load_model model_name = Raise err
     end.
Proof.
  unfold Runtime.get_model, Runtime.getitem.
  destruct (Runtime.models rt !! model_name) as [m0|] eqn:Hm.
  - rewrite Hm. repeat split; try reflexivity; try exact Hm.
    all: intros load'; now rewrite Hm.
  - destruct (load_model model_name) as [m|err] eqn:Hl.
    + cbn [Runtime.models Runtime.align_models Runtime.diarize_pipeline].
      rewrite lookup_insert_eq. repeat split; try reflexivity.
      all: try (intros k Hk; now apply lookup_insert_ne).
      all: try apply lookup_insert_eq.
      all: intros load'; cbn [Runtime.models]; now rewrite lookup_insert_eq.
    + repeat split; try reflexivity; assumption.
Qed.

(** X20. [get_align_model] does the same for the alignment models, one per
    language code, and never touches the transcription models or the
    diarization pipeline. *)
Theorem get_align_model_loads_once (load_align_model : string -> result A)
        (language_code : string) rt :
  let '(r, rt') := Runtime.get_align_model load_align_model language_code rt in
  Runtime.models rt' = Runtime.models rt
  /\ Runtime.diarize_pipeline rt' = Runtime.diarize_pipeline rt
  /\ (forall k, k <> language_code ->
        Runtime.align_models rt' !! k = Runtime.align_models rt !! k)
  /\ match r with
     | Ok a =>
         Runtime.align_models rt' !! language_code = Some a
         /\ match Runtime.align_models rt !! language_code with
            | Some a0 => a = a0 /\ rt' = rt
            | None => load_align_model language_code = Ok a
            end
         /\ forall load',
              Runtime.get_align_model load' language_code rt' = (Ok a, rt')
     | Raise err =>
         rt' = rt
         /\ Runtime.align_models rt !! language_code = None
         /\ load_align_model language_code = Raise err
     end.
Proof.
  unfold Runtime.get_align_model, Runtime.getitem.
  destruct (Runtime.align_models rt !! language_code) as [a0|] eqn:Hm.
  - rewrite Hm. repeat split; try reflexivity; try exact Hm.
    all: intros load'; now rewrite Hm.
  - destruct (load_align_model language_code) as [a|err] eqn:Hl.
    + cbn [Runtime.models Runtime.align_models Runtime.diarize_pipeline].
      rewrite lookup_insert_eq. repeat split; try reflexivity.
      all: try (intros k Hk; now apply lookup_insert_ne).
      all: try apply lookup_insert_eq.
      all: intros load'; cbn [Runtime.align_models]; now rewrite lookup_insert_eq.
    + repeat split; try reflexivity; assumption.
Qed.

(** X21. Without a token -- [HF_TOKEN] unset or empty -- the diarization
    pipeline is refused with the RuntimeError of line 77, even when one is
    already cached, and nothing changes.  With a token the pipeline is built
    at most once: a cached one is returned as it is, a successful build is
    cached and returned by every later call, and a failed build raises and
    caches nothing. *)
Theorem diarization_pipeline_needs_token (hf_token : option string)
        (make_pipeline : result P) rt :
  let '(r, rt') := Runtime.get_diarization_pipeline hf_token make_pipeline rt in
  Runtime.models rt' = Runtime.models rt
  /\ Runtime.align_models rt' = Runtime.align_models rt
  /\ (Runtime.token_set hf_token = false ->
      r = Raise (PyException Runtime.no_token) /\ rt' = rt)
  /\ (Runtime.token_set hf_token = true ->
      match r with
      | Ok p =>
          Runtime.diarize_pipeline rt' = Some p
          /\ match Runtime.diarize_pipeline rt with
             | Some p0 => p = p0 /\ rt' = rt
             | None => make_pipeline = Ok p
             end
          /\ forall make',
               Runtime.get_diarization_pipeline hf_token make' rt' = (Ok p, rt')
      | Raise err =>
          rt' = rt
          /\ Runtime.diarize_pipeline rt = None
          /\ make_pipeline = Raise err
      end).
Proof.
  unfold Runtime.get_diarization_pipeline.
  destruct (Runtime.token_set hf_token) eqn:Ht; cbn [negb].
  - destruct (Runtime.diarize_pipeline rt) as [p0|] eqn:Hp.
    + split; [reflexivity|]. split; [reflexivity|]. split; [discriminate|].
      intros _. rewrite ?Hp. repeat split.
    + destruct make_pipeline as [p|err].
      * split; [reflexivity|]. split; [reflexivity|]. split; [discriminate|].
        intros _. cbn. repeat split.
      * split; [reflexivity|]. split; [reflexivity|]. split; [discriminate|].
        intros _. repeat split.
  - split; [reflexivity|]. split; [reflexivity|]. split; [|discriminate].
    intros _. split; reflexivity.
Qed.

(** X22. Without a token a request for speaker labels cannot reach the
    diarizer: whatever the runtime has cached and whatever the diarizer
    would do, the diarization step of the pipeline ends in its fallback and
    returns the segments labelled "NARRADOR". *)
Theorem missing_token_means_narrator (hf_token : option string)
        (make_pipeline : result P) rt
        (diarize_assign : P -> list segment -> result (option (list segment)))
        (e : env) (segments : list segment) :
  Runtime.token_set hf_token = false ->
  env_diarize e = diarize_with_runtime hf_token make_pipeline rt diarize_assign ->
  diarize_step e segments = narrator_fallback segments.
Proof.
  intros Ht He. unfold diarize_step. rewrite He.
  unfold diarize_with_runtime, Runtime.get_diarization_pipeline.
  rewrite Ht. reflexivity.
Qed.

End RuntimeCaches.

Lemma missing_token_means_narrator_witness :
  diarize_step ex_env_no_token [ex_seg_ola]
  = [mk_segment (Some f_1_234) (Some f_3661_5) (Some " ola ") (Some "NARRADOR")].
Proof.
  rewrite (missing_token_means_narrator
             (Some "") (Ok tt) ex_runtime (fun _ segs => Ok (Some segs))
             ex_env_no_token [ex_seg_ola] eq_refl eq_refl).
  reflexivity.
Defined.

(** ** The paths of the temporary files *)

Section Paths.
Import OsPath.

Lemma rfind_nat_Some f s : forall i,
  rfind_nat f s = Some i -> exists c, String.get i s = Some c /\ f c = true.
Proof.
  induction s as [|a s IH]; intros i H; simpl in H; [discriminate|].
  destruct (rfind_nat f s) as [j|].
  - injection H as <-. simpl. now apply IH.
  - destruct (f a) eqn:Ha; [|discriminate]. injection H as <-. exists a. auto.
Qed.

(** no match lies after the one [rfind] returns *)
Lemma rfind_nat_last f s : forall j c,
  String.get j s = Some c -> f c = true ->
  exists i, rfind_nat f s = Some i /\ (j <= i)%nat.
Proof.
  induction s as [|a s IH]; intros j c Hj Hc; [discriminate|].
  destruct j as [|j]; simpl in Hj.
  - injection Hj as ->. simpl. rewrite Hc.
    destruct (rfind_nat f s) as [i|]; eexists; split; try reflexivity; lia.
  - destruct (IH j c Hj Hc) as (i & Hi & Hle). simpl. rewrite Hi.
    exists (S i). split; [reflexivity|lia].
Qed.

Lemma get_lt s : forall n c, String.get n s = Some c -> (n < String.length s)%nat.
Proof.
  induction s as [|a s IH]; intros n c H; [discriminate|].
  destruct n as [|n]; simpl in *; [lia|]. apply IH in H. lia.
Qed.

Lemma substring_all s : String.substring 0 (String.length s) s = s.
Proof. induction s as [|a s IH]; simpl; [reflexivity|now rewrite IH]. Qed.

Lemma substring_split s : forall n,
  (n <= String.length s)%nat ->
  String.substring 0 n s ++ String.substring n (String.length s - n) s = s.
Proof.
  induction s as [|a s IH]; intros n Hn.
  - destruct n; [reflexivity|simpl in Hn; lia].
  - destruct n as [|n].
    + rewrite Nat.sub_0_r, substring_all. reflexivity.
    + simpl in Hn. simpl. rewrite IH by lia. reflexivity.
Qed.

Lemma substring_from s : forall n c,
  String.get n s = Some c ->
  exists t, String.substring n (String.length s - n) s = String c t.
Proof.
  induction s as [|a s IH]; intros n c H; [discriminate|].
  destruct n as [|n]; simpl in H.
  - injection H as ->. simpl. eauto.
  - simpl. now apply IH.
Qed.

Lemma get_substring s : forall n m k c,
  String.get k (String.substring n m s) = Some c -> String.get (n + k) s = Some c.
Proof.
  induction s as [|a s IH]; intros n m k c H.
  - destruct n, m; discriminate.
  - destruct n as [|n].
    + destruct m as [|m]; [discriminate|]. simpl in H.
      destruct k as [|k]; [exact H|]. simpl. now apply (IH O m k c).
    + simpl in H. simpl. now apply (IH n m k c).
Qed.

Lemma has_non_dot_pos n p i : has_non_dot n p i = true -> (0 < n)%nat.
Proof. destruct n; [discriminate|lia]. Qed.

Lemma append_nil_r (s : string) : s ++ "" = s.
Proof.
  induction s as [|a s IH]; [reflexivity|].
  change (String a (s ++ "") = String a s). now rewrite IH.
Qed.

Lemma append_inj_r (a b c : string) : a ++ b = a ++ c -> b = c.
Proof.
  induction a as [|x a IH]; [auto|].
  change (String x (a ++ b) = String x (a ++ c) -> b = c). intros [= H]. auto.
Qed.

(** [splitext] cuts the path in two without losing anything: root and
    extension put together are the path.  The extension is empty, or it
    begins with the last dot of the path, holds no other dot and no
    separator, and leaves a root that is not empty. *)
Lemma splitext_splits (is_sep : ascii -> bool) (p : string) :
  let '(root, ext) := splitext is_sep p in
  root ++ ext = p
  /\ (ext = ""
      \/ root <> ""
         /\ exists t, ext = String "." t
                      /\ forall j c, String.get j t = Some c ->
                           is_dot c = false /\ is_sep c = false).
Proof.
  unfold splitext, rfind.
  match goal with |- context [if ?b then _ else _] => destruct b eqn:Hc end.
  2:{ split; [apply append_nil_r | now left]. }
  apply andb_prop in Hc as [Hgt Hnd].
  apply Z.gtb_lt in Hgt. apply has_non_dot_pos in Hnd.
  destruct (rfind_nat is_dot p) as [d|] eqn:Hd;
    [|destruct (rfind_nat is_sep p); lia].
  rewrite Nat2Z.id.
  destruct (rfind_nat_Some _ _ _ Hd) as (c & Hget & Hdot).
  apply Ascii.eqb_eq in Hdot. subst c.
  pose proof (get_lt _ _ _ Hget) as Hlt.
  split; [apply substring_split; lia|]. right. split.
  - destruct d as [|d]; [destruct (rfind_nat is_sep p); simpl in *; lia|].
    destruct p; discriminate.
  - destruct (substring_from _ _ _ Hget) as (t & Ht). exists t.
    split; [exact Ht|]. intros j c Hj.
    assert (Hp : String.get (d + S j) p = Some c).
    { apply (get_substring p d (String.length p - d)). now rewrite Ht. }
    split.
    + destruct (is_dot c) eqn:Hcd; [|reflexivity].
      destruct (rfind_nat_last is_dot p _ _ Hp Hcd) as (i & Hi & Hle).
      rewrite Hd in Hi. injection Hi as <-. lia.
    + destruct (is_sep c) eqn:Hcs; [|reflexivity].
      destruct (rfind_nat_last is_sep p _ _ Hp Hcs) as (i & Hi & Hle).
      rewrite Hi in Hgt. lia.
Qed.

(** X23. The file that [convert_to_wav] writes is never the file it reads:
    its path is the root of the input path followed by "_converted.wav", and
    differs from the input path whatever that is, so that ffmpeg's
    overwrite flag cannot destroy the upload. *)
Theorem converted_path_is_fresh (is_sep : ascii -> bool) (input_path : string) :
  converted_path is_sep input_path <> input_path.
Proof.
  unfold converted_path.
  pose proof (splitext_splits is_sep input_path) as H.
  destruct (splitext is_sep input_path) as [root ext]. simpl.
  destruct H as [Hp Hext]. intros Heq. rewrite <- Hp in Heq.
  apply append_inj_r in Heq.
  destruct Hext as [->|(_ & t & -> & _)]; discriminate.
Qed.

(** X24. Where the separators are the slash and the backslash at most,
    the suffix given to the temporary upload file begins with a dot and
    holds no separator, whatever file name the client sent: the name of the
    upload cannot move the temporary file to another directory. *)
Theorem upload_suffix_is_an_extension (is_sep : ascii -> bool) (filename : string) :
  (forall c, is_sep c = true -> c = "/"%char \/ c = "\"%char) ->
  exists t, upload_suffix is_sep filename = String "." t
            /\ forall j c, String.get j t = Some c -> is_sep c = false.
Proof.
  intros Hsep. unfold upload_suffix.
  pose proof (splitext_splits is_sep filename) as H.
  destruct (splitext is_sep filename) as [root ext]. simpl.
  destruct H as [_ [->|(_ & t & -> & Ht)]]; simpl.
  - exists "wav". split; [reflexivity|]. intros j c Hj.
    destruct (is_sep c) eqn:Hc; [|reflexivity].
    destruct (Hsep c Hc) as [-> | ->];
      destruct j as [|[|[|j]]]; simpl in Hj; discriminate.
  - exists t. split; [reflexivity|]. intros j c Hj. now apply (Ht j c).
Qed.

Lemma upload_suffix_witness :
  exists t, upload_suffix posix_sep "../../etc/passwd" = String "." t
            /\ forall j c, String.get j t = Some c -> posix_sep c = false.
Proof.
  apply upload_suffix_is_an_extension.
  intros c Hc. left. now apply Ascii.eqb_eq.
Defined.

End Paths.

(** ** Reading a subtitle time back *)

Section ReadBack.
Import PyStr PyFloat.

Lemma uint_of_string_zeros (k : nat) (s : string) :
  NilEmpty.uint_of_string (zeros k ++ s)
  = option_map (Nat.iter k Decimal.D0) (NilEmpty.uint_of_string s).
Proof.
  induction k as [|k IH]; simpl.
  - now destruct (NilEmpty.uint_of_string s).
  - change (String "0" (zeros k) ++ s) with (String "0" (zeros k ++ s)).
    simpl. rewrite IH. now destruct (NilEmpty.uint_of_string s).
Qed.

Lemma of_uint_zeros (k : nat) (d : Decimal.uint) :
  Z.of_uint (Nat.iter k Decimal.D0 d) = Z.of_uint d.
Proof. induction k as [|k IH]; [reflexivity|]. simpl. exact IH. Qed.

Lemma int_of_string_padded (k : nat) (d : Decimal.uint) :
  d <> Decimal.Nil ->
  NilZero.int_of_string (zeros k ++ NilEmpty.string_of_uint d)
  = Some (Decimal.Pos (Nat.iter k Decimal.D0 d)).
Proof.
  intros Hd.
  assert (H : NilZero.int_of_string (zeros k ++ NilEmpty.string_of_uint d)
              = option_map Decimal.Pos
                  (NilEmpty.uint_of_string (zeros k ++ NilEmpty.string_of_uint d))).
  { destruct k as [|k]; [|reflexivity].
    destruct d; [contradiction|..]; reflexivity. }
  rewrite H, uint_of_string_zeros, NilEmpty.usu. reflexivity.
Qed.

Lemma to_uint_nonnil (p : positive) : Pos.to_uint p <> Decimal.Nil.
Proof.
  intros H. pose proof (DecimalPos.Unsigned.of_to p) as Hp.
  rewrite H in Hp. discriminate.
Qed.

(** a number padded with zeros reads back as itself *)
Lemma parse_int_format_0w (w : nat) (n : Z) :
  0 <= n -> parse_int (format_0w w n) = Some n.
Proof.
  intros Hn. unfold parse_int, format_0w, zfill, of_int.
  destruct (Z.ltb_spec n 0) as [|_]; [lia|].
  set (k := (w - _)%nat). clearbody k.
  destruct n as [|p|p]; [| |lia].
  - change (NilZero.string_of_int (Z.to_int 0))
      with (NilEmpty.string_of_uint (Decimal.D0 Decimal.Nil)).
    rewrite int_of_string_padded by discriminate. simpl option_map.
    f_equal. change (Z.of_uint (Nat.iter k Decimal.D0 (Decimal.D0 Decimal.Nil)) = 0).
    now rewrite of_uint_zeros.
  - pose proof (to_uint_nonnil p) as Hp.
    assert (Hs : NilZero.string_of_int (Z.to_int (Zpos p))
                 = NilEmpty.string_of_uint (Pos.to_uint p)).
    { simpl. unfold NilZero.string_of_uint. destruct (Pos.to_uint p); congruence. }
    rewrite Hs, int_of_string_padded by assumption. simpl option_map.
    f_equal. change (Z.of_uint (Nat.iter k Decimal.D0 (Pos.to_uint p)) = Zpos p).
    rewrite of_uint_zeros.
    exact (DecimalZ.of_to (Zpos p)).
Qed.

(** the millisecond count of a value in range, and what it is formatted to *)
Lemma format_srt_time_in_range (x : float) :
  nonneg_finite x = true ->
  is_finite (mul x f1000) = true ->
  Qround.Qfloor (value (mul x f1000)) < Timedelta.ms_limit ->
  let total_ms := Qround.Qfloor (value (mul x f1000)) in
  0 <= total_ms
  /\ format_srt_time x
     = Ok (format_0w 2 (total_ms / 1000 / 3600) ++ ":"
           ++ format_0w 2 ((total_ms / 1000) mod 3600 / 60) ++ ":"
           ++ format_0w 2 ((total_ms / 1000) mod 60) ++ ","
           ++ format_0w 3 (total_ms mod 1000)).
Proof.
  intros Hx Hfin Hlim total_ms.
  assert (Hp : nonneg_finite (mul x f1000) = true
               /\ (forall j, 0 <= j -> 2 ^ (52 + j) <= total_ms -> (2 ^ j | total_ms))
               /\ 0 <= total_ms).
  { destruct x as [s|s| |s m e]; try discriminate.
    - split; [reflexivity|]. split; [|reflexivity].
      intros j _ _. apply Z.divide_0_r.
    - destruct s; [discriminate|].
      pose proof (mul_f1000_shape m e) as Hs.
      unfold total_ms in *.
      destruct (mul (S754_finite false m e) f1000) as [s'|s'| |s' m' e'] eqn:Ep;
        try discriminate; try contradiction.
      + split; [reflexivity|]. split; [|reflexivity].
        intros j _ _. apply Z.divide_0_r.
      + destruct Hs as [-> Hd].
        pose proof (to_int_floor (S754_finite false m' e') eq_refl) as Hti.
        split; [reflexivity|]. split.
        * intros j Hj Hbig. now apply (to_int_divisible m' e' _ j Hd Hti).
        * now apply (to_int_nonneg m' e' _ Hti). }
  destruct Hp as (Hnn & Hdiv & Hpos).
  pose proof (to_int_floor _ Hnn) as Hms. fold total_ms in Hms.
  split; [assumption|].
  apply format_srt_time_of_ms; try assumption; [unfold total_ms; lia| | |].
  - apply (Hdiv 1); lia.
  - apply (Hdiv 2); lia.
  - apply (Hdiv 3); lia.
Qed.

(** X25. A subtitle time reads back as the millisecond count it was made
    from.  For a value in the range of [format_srt_time], the text is
    hours ":" minutes ":" seconds "," milliseconds, four runs of decimal
    digits; minutes and seconds are below 60, milliseconds below 1000, and
    ((hours x 60 + minutes) x 60 + seconds) x 1000 + milliseconds is the
    integer part of the value times 1000. *)
Theorem srt_time_reads_back (x : float) :
  nonneg_finite x = true ->
  is_finite (mul x f1000) = true ->
  Qround.Qfloor (value (mul x f1000)) < Timedelta.ms_limit ->
  exists hh mm ss mmm h m s ms,
    format_srt_time x = Ok (hh ++ ":" ++ mm ++ ":" ++ ss ++ "," ++ mmm)
    /\ parse_int hh = Some h /\ parse_int mm = Some m
    /\ parse_int ss = Some s /\ parse_int mmm = Some ms
    /\ 0 <= h /\ 0 <= m < 60 /\ 0 <= s < 60 /\ 0 <= ms < 1000
    /\ ((h * 60 + m) * 60 + s) * 1000 + ms
       = Qround.Qfloor (value (mul x f1000)).
Proof.
  intros Hx Hfin Hlim.
  destruct (format_srt_time_in_range x Hx Hfin Hlim) as [Hpos Hfmt].
  set (t := Qround.Qfloor (value (mul x f1000))) in *.
  do 4 eexists. exists (t / 1000 / 3600), ((t / 1000) mod 3600 / 60),
                       ((t / 1000) mod 60), (t mod 1000).
  split; [exact Hfmt|].
  assert (H1 : 0 <= t / 1000) by (apply Z.div_pos; lia).
  assert (H2 : 0 <= t / 1000 / 3600) by (apply Z.div_pos; lia).
  pose proof (Z.mod_pos_bound (t / 1000) 3600 ltac:(lia)) as H3.
  assert (H4 : 0 <= (t / 1000) mod 3600 / 60 < 60).
  { split; [apply Z.div_pos; lia | apply Z.div_lt_upper_bound; lia]. }
  pose proof (Z.mod_pos_bound (t / 1000) 60 ltac:(lia)) as H5.
  pose proof (Z.mod_pos_bound t 1000 ltac:(lia)) as H6.
  repeat (split; [apply parse_int_format_0w; lia|]).
  split; [lia|]. split; [lia|]. split; [lia|]. split; [lia|].
  pose proof (Z_div_mod_eq_full t 1000) as E1.
  pose proof (Z_div_mod_eq_full (t / 1000) 3600) as E2.
  pose proof (Z_div_mod_eq_full ((t / 1000) mod 3600) 60) as E3.
  assert (E4 : (t / 1000) mod 60 = ((t / 1000) mod 3600) mod 60).
  { symmetry. apply Z.mod_mod_divide. exists 60. reflexivity. }
  rewrite E4. lia.
Qed.

Lemma srt_time_reads_back_witness :
  exists hh mm ss mmm h m s ms,
    format_srt_time f_3661_5 = Ok (hh ++ ":" ++ mm ++ ":" ++ ss ++ "," ++ mmm)
    /\ parse_int hh = Some h /\ parse_int mm = Some m
    /\ parse_int ss = Some s /\ parse_int mmm = Some ms
    /\ ((h * 60 + m) * 60 + s) * 1000 + ms = 3661500.
Proof.
  destruct (srt_time_reads_back f_3661_5)
    as (hh & mm & ss & mmm & h & m & s & ms & H1 & H2 & H3 & H4 & H5 & _ & _ & _ & _ & H6).
  - vm_compute. reflexivity.
  - vm_compute. reflexivity.
  - vm_compute. reflexivity.
  - exists hh, mm, ss, mmm, h, m, s, ms. repeat split; try assumption.
    all: rewrite H6; vm_compute; reflexivity.
Defined.

End ReadBack.

(** ** A conversion that fails *)

(** X26. When ffmpeg cannot convert the upload, the job ends there: no
    later stage runs, the answer is 400 with the conversion message followed
    by ffmpeg's error output, whenever a stop arrives; on the server the
    slot is free again and the record of the previous job is still the one
    stored. *)
Theorem failed_conversion_is_a_client_error (c : config) (e : env) (req : request)
        (signal : option stage) (stderr : string) :
  reachable c ->
  current_task_lock (srv c) = false ->
  env_save_upload e = Ok tt ->
  env_convert_to_wav e = Raise (FfmpegError stderr) ->
  let evs := EvTranscribe req e :: schedule signal false (transcribe_body e req) in
  stages_run signal false (transcribe_body e req) = [StSave; StConvert]
  /\ last (fst (run evs c))
     = Some (OutTranscribe (Some (HttpError 400 (Msg.convert_failed ++ stderr))))
  /\ last_export_payload (srv (snd (run evs c))) = last_export_payload (srv c)
  /\ current_task_lock (srv (snd (run evs c))) = false.
Proof.
  intros Hr Hfree Hsave Hconv evs.
  assert (Halone : transcribe_alone signal e req
                   = (HttpError 400 (Msg.convert_failed ++ stderr), None)).
  { unfold transcribe_alone, transcribe_body, call. rewrite Hsave, Hconv.
    reflexivity. }
  split.
  - unfold transcribe_body, call. rewrite Hsave, Hconv. reflexivity.
  - destruct (run_alone signal c req e Hr Hfree) as (H1 & H2 & H3).
    fold evs in H1, H2, H3. rewrite Halone in H1, H2. auto.
Qed.

Lemma failed_conversion_witness :
  last (fst (run (EvTranscribe ex_req ex_env_bad_audio
                  :: schedule None false (transcribe_body ex_env_bad_audio ex_req))
                 init))
  = Some (OutTranscribe
            (Some (HttpError 400 (Msg.convert_failed ++ "invalid data")))).
Proof.
  exact (proj1 (proj2 (failed_conversion_is_a_client_error
                         init ex_env_bad_audio ex_req None "invalid data"
                         reachable_init eq_refl eq_refl eq_refl))).
Defined.
